(** * pymc_bart.tree: the regression tree of BART

    A shallow embedding of [src/pymc_bart/tree.py] and the properties of its
    [Node] and [Tree] classes.  The embedding follows the Python and NumPy
    semantics of the file as it is written:

    - [Node] and [Tree] instances, the [tree_structure] dict and the NumPy
      arrays are mutable objects; they live in a store ([heap]) and are
      passed around by reference ([loc]), so what a tree and its copy share
      is visible;
    - a Python exception is a value of [exn], and a method is a function
      from the store to a [result];
    - the integer fields are the [int64] of the class layout, with the
      wrap-around of their arithmetic written out;
    - [value], the thresholds, the points [x] and the output buffer are
      binary64 floats (the kernel's primitive floats, IEEE 754 as NumPy's
      float64);
    - the recursion of [_traverse_tree] and [_traverse_leaf_values] is
      bounded by a recursion limit (fuel), whose exhaustion is
      [RecursionError].

    Both classes are decorated with numba's [@jitclass].  The embedding
    gives a method the meaning of its body as Python evaluates it, on the
    int64 and float64 fields of the class layout.  That is how the compiled
    class behaves for the constructors, [new_leaf_node], [new_split_node],
    the index arithmetic, [get_node], [set_node], [copy],
    [get_split_variables] and [_predict], whose bodies are within what
    numba compiles.  It is not for three groups of methods, which numba
    compiles at their first call and refuses, so that the call raises before
    the body runs:

    - [predict], [_traverse_tree] and [_traverse_leaf_values]: [excluded] is
      [None] and then an empty list, [leaf_values] is an empty list of no
      element type, and the two traversals call themselves;
    - [delete_leaf_node]: an int64 array has no [remove];
    - [trim]: [del] of an attribute, where the attributes of an instance
      are the fixed fields of the layout.

    Of the first two groups the embedding is that of the body, and the
    properties stated of them are that the body, too, does not reach what is
    documented (the mean of no value, a removal that never happens) and that
    its recursion is bounded.  [trim] is not embedded: there is no store in
    which an attribute of an instance is absent after a [del] that ran.

    [get_depth] is the quotient of two floating-point logarithms of the C
    library and is not embedded. *)

From Stdlib Require Import ZArith Floats Lia.
From stdpp Require Import base option list.

Local Open Scope Z_scope.

(** ** Exceptions *)

Inductive exn : Set :=
| KeyError        (* dict lookup or [del] of a missing key *)
| AttributeError  (* missing attribute or method *)
| IndexError      (* array index out of bounds *)
| TypeError       (* an object of the wrong class; no call below passes one *)
| RecursionError. (* recursion limit reached *)

Inductive result (A : Type) : Type :=
| Ok (a : A)
| Raise (e : exn).
Arguments Ok {A} a.
Arguments Raise {A} e.

#[global] Instance result_ret : MRet result := fun A a => Ok a.
#[global] Instance result_fmap : FMap result := fun A B f m =>
  match m with
  | Ok a => Ok (f a)
  | Raise e => Raise e
  end.
#[global] Instance result_bind : MBind result := fun A B f m =>
  match m with
  | Ok a => f a
  | Raise e => Raise e
  end.

(** Reading an attribute that an object of the store may lack. *)
Definition attr {A} (o : option A) : result A :=
  match o with
  | Some a => Ok a
  | None => Raise AttributeError
  end.

(** ** Integers and index arithmetic *)

Definition int64_wrap (z : Z) : Z := (z + 2 ^ 63) mod 2 ^ 64 - 2 ^ 63.

(** NumPy indexing along an axis of length [n]: a negative index counts from
    the end, anything outside [-n, n) is an [IndexError]. *)
Definition norm_index (n : nat) (i : Z) : result nat :=
  if (0 <=? i) && (i <? Z.of_nat n) then Ok (Z.to_nat i)
  else if (- Z.of_nat n <=? i) && (i <? 0) then Ok (Z.to_nat (i + Z.of_nat n))
  else Raise IndexError.

(** [x[i]] for a one-dimensional array. *)
Definition getitem (x : list float) (i : Z) : result float :=
  j ← norm_index (length x) i;
  match x !! j with
  | Some v => Ok v
  | None => Raise IndexError
  end.

(** ** The data model *)

Abbreviation loc := nat.

(** [class Node]: the four fields of the class layout.  [idx_data_points]
    refers to an int32 array; it is [None] once removed with [del]. *)
Record Node : Set := mkNode {
  index : Z;
  value : float;
  idx_split_variable : Z;
  idx_data_points : option loc
}.

(** [class Tree].  [tree_structure] refers to a dict, [idx_leaf_nodes] to an
    int64 array and [output] to a two-dimensional float64 array. *)
Record Tree : Set := mkTree {
  tree_structure : loc;
  idx_leaf_nodes : option loc;
  output : option loc;
  leaf_node_value : float
}.

(** A two-dimensional float64 array of shape [(length rows, shape1)]. *)
Record array2 : Set := mkArray2 {
  shape1 : nat;
  rows : list (list float)
}.

(** A dict from int to Node references, in insertion order. *)
Abbreviation dict := (list (Z * loc)).

Inductive obj : Set :=
| ONdInt (a : list Z)
| ONdFloat2 (a : array2)
| ONode (n : Node)
| ODict (d : dict)
| OTree (t : Tree).

(** The store.  A new object is placed at the end, so its reference is the
    length of the store before the allocation. *)
Abbreviation heap := (list obj).

Definition alloc (h : heap) (o : obj) : heap * loc := (h ++ [o], length h).

Definition ints_at (h : heap) (l : loc) : result (list Z) :=
  match h !! l with Some (ONdInt a) => Ok a | _ => Raise TypeError end.
Definition floats_at (h : heap) (l : loc) : result array2 :=
  match h !! l with Some (ONdFloat2 a) => Ok a | _ => Raise TypeError end.
Definition node_at (h : heap) (l : loc) : result Node :=
  match h !! l with Some (ONode n) => Ok n | _ => Raise TypeError end.
Definition dict_at (h : heap) (l : loc) : result dict :=
  match h !! l with Some (ODict d) => Ok d | _ => Raise TypeError end.
Definition tree_at (h : heap) (l : loc) : result Tree :=
  match h !! l with Some (OTree t) => Ok t | _ => Raise TypeError end.

(** ** Dicts *)

Fixpoint dict_get (d : dict) (k : Z) : option loc :=
  match d with
  | [] => None
  | (k', v) :: d' => if k' =? k then Some v else dict_get d' k
  end.

(** [d[k] = v]: an existing key keeps its position, a new key goes last. *)
Fixpoint dict_set (d : dict) (k : Z) (v : loc) : dict :=
  match d with
  | [] => [(k, v)]
  | (k', v') :: d' =>
      if k' =? k then (k', v) :: d' else (k', v') :: dict_set d' k v
  end.

Fixpoint dict_del (d : dict) (k : Z) : dict :=
  match d with
  | [] => []
  | (k', v') :: d' => if k' =? k then d' else (k', v') :: dict_del d' k
  end.

(** ** NumPy *)

(** [np.append(arr, v)]: a new array; [arr] itself is left as it is. *)
Definition np_append {A} (arr : list A) (v : A) : list A := arr ++ [v].

(** [arr.copy()] *)
Definition ints_copy (h : heap) (a : loc) : result (heap * loc) :=
  arr ← ints_at h a;
  Ok (alloc h (ONdInt arr)).
Definition floats_copy (h : heap) (a : loc) : result (heap * loc) :=
  arr ← floats_at h a;
  Ok (alloc h (ONdFloat2 arr)).

(** [np.mean(l, 0)] of a list of floats: the sum over the count.  For the
    empty list this is [0 / 0], that is [nan]. *)
Definition np_mean (l : list float) : float :=
  (fold_left PrimFloat.add l 0 / PrimFloat.of_uint63 (Uint63.of_Z (Z.of_nat (length l))))%float.

(** [a[idx] = v] with an integer array [idx] and a scalar [v]: every row
    named by [idx] is filled with [v]; the indices are checked first. *)
Definition setitem_rows (a : array2) (idx : list Z) (v : float) : result array2 :=
  js ← mapM (norm_index (length (rows a))) idx;
  Ok (mkArray2 (shape1 a)
        (foldl (fun rs j => <[j := replicate (shape1 a) v]> rs) (rows a) js)).

(** [a.T] *)
Definition transpose (a : array2) : array2 :=
  mkArray2 (length (rows a))
    (map (fun j => map (fun r => nth j r 0%float) (rows a)) (seq 0 (shape1 a))).

(** A [for] loop over a sequence, threading the store. *)
Fixpoint for_each {A} (body : heap -> A -> result heap) (l : list A) (h : heap)
  : result heap :=
  match l with
  | [] => Ok h
  | a :: l' => h' ← body h a; for_each body l' h'
  end.

(** ** class Node *)

Definition with_index (i : Z) (n : Node) : Node :=
  mkNode i (value n) (idx_split_variable n) (idx_data_points n).
Definition with_value (v : float) (n : Node) : Node :=
  mkNode (index n) v (idx_split_variable n) (idx_data_points n).
Definition with_idx_split_variable (s : Z) (n : Node) : Node :=
  mkNode (index n) (value n) s (idx_data_points n).
Definition with_idx_data_points (d : option loc) (n : Node) : Node :=
  mkNode (index n) (value n) (idx_split_variable n) d.

(** An attribute assignment [self.f = v] on the node at [self]. *)
Definition upd_node (h : heap) (self : loc) (f : Node -> Node) : result heap :=
  n ← node_at h self;
  Ok (<[self := ONode (f n)]> h).

(** [Node()] *)
Definition Node_init (h : heap) : heap * loc :=
  let '(h, a) := alloc h (ONdInt []) in
  alloc h (ONode (mkNode (-1) 0 (-1) (Some a))).

Definition new_leaf_node (h : heap) (self : loc) (i : Z) (v : float) (idp : loc)
  : result (heap * loc) :=
  h ← upd_node h self (with_index i);
  h ← upd_node h self (with_value v);
  h ← upd_node h self (with_idx_data_points (Some idp));
  h ← upd_node h self (with_idx_split_variable (-1));
  Ok (h, self).

Definition new_split_node (h : heap) (self : loc) (i : Z) (split_value : float)
    (var : Z) : result (heap * loc) :=
  h ← upd_node h self (with_index i);
  h ← upd_node h self (with_value split_value);
  let '(h, a) := alloc h (ONdInt []) in
  h ← upd_node h self (with_idx_data_points (Some a));
  h ← upd_node h self (with_idx_split_variable var);
  Ok (h, self).

Definition get_idx_parent_node (self : Node) : Z :=
  int64_wrap (index self - 1) / 2.

Definition get_idx_left_child (self : Node) : Z :=
  int64_wrap (int64_wrap (index self * 2) + 1).

Definition get_idx_right_child (self : Node) : Z :=
  int64_wrap (get_idx_left_child self + 1).

Definition is_split_node (self : Node) : bool := 0 <=? idx_split_variable self.

Definition is_leaf_node (self : Node) : bool := negb (is_split_node self).

(** ** class Tree *)

(** [Tree(leaf_node_value, idx_data_points, output)] *)
Definition Tree_init (h : heap) (v : float) (idp : loc) (out : loc)
  : result (heap * loc) :=
  let '(h, n) := Node_init h in
  '(h, n) ← new_leaf_node h n 0 v idp;
  let '(h, d) := alloc h (ODict [(0, n)]) in
  let '(h, a) := alloc h (ONdInt [0]) in
  Ok (alloc h (OTree (mkTree d (Some a) (Some out) v))).

Definition get_node (h : heap) (self : loc) (i : Z) : result loc :=
  t ← tree_at h self;
  d ← dict_at h (tree_structure t);
  match dict_get d i with
  | Some n => Ok n
  | None => Raise KeyError
  end.

(** [set_node]: the array that [np.append] returns is dropped, so the store
    after the call differs from the store before only in the dict. *)
Definition set_node (h : heap) (self : loc) (i : Z) (node : loc) : result heap :=
  t ← tree_at h self;
  d ← dict_at h (tree_structure t);
  let h := <[tree_structure t := ODict (dict_set d i node)]> h in
  n ← node_at h node;
  if is_leaf_node n then
    a ← attr (idx_leaf_nodes t);
    arr ← ints_at h a;
    let _ := np_append arr i in
    Ok h
  else Ok h.

(** [arr.remove(i)] on a NumPy array: ndarray has no such method, and
    Python raises [AttributeError] when the body reaches the call.  (As a
    method of the jitclass the lookup already fails when the method is
    compiled; either way the call raises and nothing is removed.) *)
Definition ndarray_remove (h : heap) (a : loc) (i : Z) : result heap :=
  _ ← ints_at h a;
  Raise AttributeError.

Definition delete_leaf_node (h : heap) (self : loc) (i : Z) : result heap :=
  t ← tree_at h self;
  a ← attr (idx_leaf_nodes t);
  h ← ndarray_remove h a i;
  t ← tree_at h self;
  d ← dict_at h (tree_structure t);
  match dict_get d i with
  | Some _ => Ok (<[tree_structure t := ODict (dict_del d i)]> h)
  | None => Raise KeyError
  end.

(** [__setstate__]: the four attributes are set from the state tuple. *)
Definition __setstate__ (h : heap) (self : loc) (state : Tree) : result heap :=
  _ ← tree_at h self;
  Ok (<[self := OTree state]> h).

(** The body of the loop of [copy] for one item [(k, v)]; [tree[k] = node]
    is [set_node]. *)
Definition copy_item (tree : loc) (h : heap) (kv : Z * loc) : result heap :=
  let '(k, v) := kv in
  let '(h, node) := Node_init h in
  vn ← node_at h v;
  h ← upd_node h node (with_index (index vn));
  vn ← node_at h v;
  h ← upd_node h node (with_value (value vn));
  vn ← node_at h v;
  a ← attr (idx_data_points vn);
  '(h, c) ← ints_copy h a;
  h ← upd_node h node (with_idx_data_points (Some c));
  vn ← node_at h v;
  h ← upd_node h node (with_idx_split_variable (idx_split_variable vn));
  set_node h tree k node.

(** [copy].  The arguments of [Tree(...)] are read first; the loop runs over
    the items of the dict of [self], which the loop does not write. *)
Definition copy (h : heap) (self : loc) : result (heap * loc) :=
  t ← tree_at h self;
  root ← get_node h self 0;
  rn ← node_at h root;
  idp ← attr (idx_data_points rn);
  out ← attr (output t);
  '(h, out') ← floats_copy h out;
  '(h, tree) ← Tree_init h (leaf_node_value t) idp out';
  t ← tree_at h self;
  items ← dict_at h (tree_structure t);
  h ← for_each (copy_item tree) items h;
  Ok (h, tree).

Definition get_split_variables (h : heap) (self : loc) : result (list Z) :=
  t ← tree_at h self;
  d ← dict_at h (tree_structure t);
  ns ← mapM (node_at h) (map snd d);
  Ok (map idx_split_variable (filter (fun n => is_split_node n = true) ns)).

(** The body of the loop of [_predict] for one entry of [idx_leaf_nodes]. *)
Definition predict_item (self out : loc) (h : heap) (node_index : Z) : result heap :=
  leaf_node ← get_node h self node_index;
  n ← node_at h leaf_node;
  idp ← attr (idx_data_points n);
  idx ← ints_at h idp;
  buf ← floats_at h out;
  buf ← setitem_rows buf idx (value n);
  Ok (<[out := ONdFloat2 buf]> h).

(** [_predict]: the buffer is written in place; the value returned is the
    transposed view of it. *)
Definition _predict (h : heap) (self : loc) : result (heap * array2) :=
  t ← tree_at h self;
  out ← attr (output t);
  a ← attr (idx_leaf_nodes t);
  leaves ← ints_at h a;
  h ← for_each (predict_item self out) leaves h;
  buf ← floats_at h out;
  Ok (h, transpose buf).

Definition mem (v : Z) (l : list Z) : bool := existsb (Z.eqb v) l.

(** [_traverse_leaf_values], [_traverse_tree] and [predict], by their
    bodies.

    [_traverse_leaf_values]: [leaf_values] is threaded through; at a leaf the
    array built by [np.append] is dropped and the list stays as it was. *)
Fixpoint _traverse_leaf_values (fuel : nat) (h : heap) (self : loc)
    (leaf_values : list float) (node_index : Z) : result (list float) :=
  match fuel with
  | O => Raise RecursionError
  | S fuel =>
      l ← get_node h self node_index;
      node ← node_at h l;
      if is_leaf_node node then
        let _ := np_append leaf_values (value node) in
        Ok leaf_values
      else
        leaf_values ← _traverse_leaf_values fuel h self leaf_values
                        (get_idx_left_child node);
        _traverse_leaf_values fuel h self leaf_values (get_idx_right_child node)
  end.

Fixpoint _traverse_tree (fuel : nat) (h : heap) (self : loc) (x : list float)
    (node_index : Z) (excluded : list Z) : result float :=
  match fuel with
  | O => Raise RecursionError
  | S fuel =>
      l ← get_node h self node_index;
      current_node ← node_at h l;
      if is_leaf_node current_node then Ok (value current_node)
      else if mem (idx_split_variable current_node) excluded then
        leaf_values ← _traverse_leaf_values fuel h self [] node_index;
        Ok (np_mean leaf_values)
      else
        xv ← getitem x (idx_split_variable current_node);
        if PrimFloat.leb xv (value current_node) then
          _traverse_tree fuel h self x (get_idx_left_child current_node) excluded
        else
          _traverse_tree fuel h self x (get_idx_right_child current_node) excluded
  end.

Definition predict (fuel : nat) (h : heap) (self : loc) (x : list float)
    (excluded : option (list Z)) : result float :=
  let excluded := match excluded with None => [] | Some e => e end in
  _traverse_tree fuel h self x 0 excluded.

(** ** Reading a tree *)

(** A node looked up and read: [self.get_node(i)] and the fields of what it
    returns. *)
Definition load (h : heap) (t : loc) (i : Z) : result Node :=
  l ← get_node h t i;
  node_at h l.

(** What a tree's leaf-index collection holds. *)
Definition leaf_indices (h : heap) (t : loc) : result (list Z) :=
  tr ← tree_at h t;
  a ← attr (idx_leaf_nodes tr);
  ints_at h a.

(** What [_predict] reads of the node registered at index [i]: the node and
    the rows named by its [idx_data_points]. *)
Definition leaf_rows (h : heap) (t : loc) (i : Z) : result (Node * list Z) :=
  l ← get_node h t i;
  n ← node_at h l;
  idp ← attr (idx_data_points n);
  idx ← ints_at h idp;
  Ok (n, idx).

(** ** The scenarios *)

(** Three training rows and a 3 x 1 output buffer of zeros. *)
Definition three_rows : heap :=
  [ONdInt [0; 1; 2]; ONdFloat2 (mkArray2 1 [[0%float]; [0%float]; [0%float]])].

(** Scenario 1: [Tree(5.0, [0, 1, 2], zeros((3, 1)))]. *)
Definition scenario1 : result (heap * loc) := Tree_init three_rows 5 0%nat 1%nat.

(** Growing the leaf at [i] as the sampler does it: the slot gets a split
    node and the two children get leaves, all through [set_node]. *)
Definition grow (h : heap) (t : loc) (i : Z) (var : Z) (threshold : float)
    (lv : float) (lrows : list Z) (rv : float) (rrows : list Z) : result heap :=
  let '(h, s) := Node_init h in
  '(h, s) ← new_split_node h s i threshold var;
  let '(h, la) := alloc h (ONdInt lrows) in
  let '(h, l) := Node_init h in
  '(h, l) ← new_leaf_node h l (i * 2 + 1) lv la;
  let '(h, ra) := alloc h (ONdInt rrows) in
  let '(h, r) := Node_init h in
  '(h, r) ← new_leaf_node h r (i * 2 + 2) rv ra;
  h ← set_node h t i s;
  h ← set_node h t (i * 2 + 1) l;
  set_node h t (i * 2 + 2) r.

(** Scenario 2: the root grown on variable 0 at threshold 0.5 into a left
    leaf 1.0 over rows 0 and 1 and a right leaf 9.0 over row 2. *)
Definition scenario2 : result (heap * loc) :=
  '(h, t) ← scenario1;
  h ← grow h t 0 0 0.5 1 [0; 1] 9 [2];
  Ok (h, t).

Definition on {A} (s : result (heap * loc)) (f : heap -> loc -> result A) : result A :=
  '(h, t) ← s; f h t.

(** The tree of Scenario 2 with its leaves registered by hand: the state
    [(tree_structure, array([1, 2]), output, leaf_node_value)] is installed
    with [__setstate__]. *)
Definition scenario2_registered : result (heap * loc) :=
  '(h, t) ← scenario2;
  tr ← tree_at h t;
  let '(h, a) := alloc h (ONdInt [1; 2]) in
  h ← __setstate__ h t
        (mkTree (tree_structure tr) (Some a) (output tr) (leaf_node_value tr));
  Ok (h, t).

(** The store and the tree of Scenario 2. *)
Definition scenario2_heap : heap :=
  Eval vm_compute in match scenario2 with Ok (h, _) => h | Raise _ => [] end.

Definition scenario2_tree : loc :=
  Eval vm_compute in match scenario2 with Ok (_, t) => t | Raise _ => O end.

(** The stores and trees of Scenario 1 and of Scenario 2 with its leaves
    registered. *)
Definition scenario1_heap : heap :=
  Eval vm_compute in match scenario1 with Ok (h, _) => h | Raise _ => [] end.

Definition scenario1_tree : loc :=
  Eval vm_compute in match scenario1 with Ok (_, t) => t | Raise _ => O end.

Definition scenario2_registered_heap : heap :=
  Eval vm_compute in
    match scenario2_registered with Ok (h, _) => h | Raise _ => [] end.

Definition scenario2_registered_tree : loc :=
  Eval vm_compute in
    match scenario2_registered with Ok (_, t) => t | Raise _ => O end.

(** Scenario 2 after [c = T.copy()]: the store and the copy. *)
Definition scenario2_copied : heap * loc :=
  Eval vm_compute in
    match copy scenario2_heap scenario2_tree with
    | Ok r => r
    | Raise _ => ([], O)
    end.

(** A tree with all its attributes, as the constructor and [set_node] make
    them: a root, an [output] buffer, an [idx_leaf_nodes] array, and for
    every node an [idx_data_points] array. *)
Definition tree_wf (h : heap) (t : loc) : Prop :=
  exists tr d,
    h !! t = Some (OTree tr) /\ h !! tree_structure tr = Some (ODict d) /\
    NoDup (map fst d) /\ is_Some (dict_get d 0) /\
    (exists o b, output tr = Some o /\ h !! o = Some (ONdFloat2 b)) /\
    (exists a l, idx_leaf_nodes tr = Some a /\ h !! a = Some (ONdInt l)) /\
    forall k v, (k, v) ∈ d ->
      exists n a arr, h !! v = Some (ONode n) /\ idx_data_points n = Some a /\
                      h !! a = Some (ONdInt arr).

(** The buffer of a tree. *)
Definition output_buffer (h : heap) (t : loc) : result array2 :=
  tr ← tree_at h t;
  o ← attr (output tr);
  floats_at h o.

(** ** Invariants *)

(** Invariant 1 of the data model, for the tree [t] of the store [h]: the
    nodes form a full binary tree rooted at index 0.  Every node sits at the
    key that its [index] field names, a non-negative int64; a split node
    has both children, a leaf has none; every node but the root has its
    parent. *)
Definition full_binary_tree (h : heap) (t : loc) : Prop :=
  exists tr d,
    tree_at h t = Ok tr /\ dict_at h (tree_structure tr) = Ok d /\
    is_Some (dict_get d 0) /\
    forall k l, dict_get d k = Some l ->
      exists n, node_at h l = Ok n /\ index n = k /\ 0 <= k < 2 ^ 63 /\
        (if is_split_node n
         then is_Some (dict_get d (k * 2 + 1)) /\ is_Some (dict_get d (k * 2 + 2))
         else dict_get d (k * 2 + 1) = None /\ dict_get d (k * 2 + 2) = None) /\
        (k <> 0 -> is_Some (dict_get d ((k - 1) / 2))).

(** The number of keys of [d] that are at least [k]: it bounds the number
    of nodes on a path that descends from [k]. *)
Fixpoint count_ge (d : dict) (k : Z) : nat :=
  match d with
  | [] => O
  | (k', _) :: d' => if k <=? k' then S (count_ge d' k) else count_ge d' k
  end.

(** A call has returned or raised, other than by reaching the recursion
    limit. *)
Definition terminated {A} (r : result A) : Prop := r <> Raise RecursionError.

(** The typing of [tree_structure] in the class layout, a dict from int64
    to Node: [t] is a tree of the store [h] whose dict has distinct keys and
    refers to Node objects only. *)
Definition tree_ok (h : heap) (t : loc) : Prop :=
  exists tr d,
    h !! t = Some (OTree tr) /\ h !! tree_structure tr = Some (ODict d) /\
    NoDup (map fst d) /\
    forall k v, (k, v) ∈ d -> exists n, h !! v = Some (ONode n).

(** Two nodes that differ at most in their [idx_data_points]. *)
Definition same_shape (n n' : Node) : Prop :=
  index n = index n' /\ value n = value n' /\
  idx_split_variable n = idx_split_variable n'.

(** The node at [lc] of the store [hc] is a copy of the node at [v] of the
    store [h0], made after [h0]: it has the fields of the node at [v], but it
    is a new object, and so is its array. *)
Definition copied (h0 hc : heap) (v lc : loc) : Prop :=
  exists vn nc a arr,
    h0 !! v = Some (ONode vn) /\ hc !! lc = Some (ONode nc) /\
    same_shape vn nc /\ idx_data_points nc = Some a /\
    hc !! a = Some (ONdInt arr) /\
    (length h0 <= lc)%nat /\ (length h0 <= a)%nat.

(** Row [r] belongs to the node [n] registered at index [i]. *)
Definition owns (h : heap) (t : loc) (leaves : list Z) (r : nat) (n : Node) : Prop :=
  exists i idx, i ∈ leaves /\ leaf_rows h t i = Ok (n, idx) /\ Z.of_nat r ∈ idx.

(** * Properties *)

(** ** Index arithmetic of [Node] *)

Lemma int64_wrap_id z : - 2 ^ 63 <= z < 2 ^ 63 -> int64_wrap z = z.
Proof.
  intros Hz. unfold int64_wrap.
  rewrite Z.mod_small by lia. lia.
Qed.

(** The children of a node at [i] are at [2 i + 1] and [2 i + 2] as long as
    these fit the int64 of the field. *)
Lemma left_child_index n :
  0 <= index n < 2 ^ 62 -> get_idx_left_child n = index n * 2 + 1.
Proof.
  intros Hi. unfold get_idx_left_child.
  rewrite (int64_wrap_id (index n * 2)) by lia.
  apply int64_wrap_id. lia.
Qed.

Lemma right_child_index n :
  0 <= index n < 2 ^ 62 - 1 -> get_idx_right_child n = index n * 2 + 2.
Proof.
  intros Hi. unfold get_idx_right_child.
  rewrite left_child_index by lia.
  rewrite int64_wrap_id by lia. lia.
Qed.

Lemma parent_index n :
  0 < index n < 2 ^ 63 -> get_idx_parent_node n = (index n - 1) / 2.
Proof.
  intros Hi. unfold get_idx_parent_node.
  now rewrite int64_wrap_id by lia.
Qed.

(** The node of the tests: [Node().new_split_node(5, 3.0, 2)]. *)
Example test_split_node :
  let n := mkNode 5 3 2 None in
  get_idx_parent_node n = 2 /\ get_idx_left_child n = 11 /\
  get_idx_right_child n = 12 /\ is_split_node n = true /\ is_leaf_node n = false.
Proof. repeat split. Qed.

(** C5, as the spec states it, fails: the parent index computed for a root
    node is not 0. *)
Lemma parent_of_root_is_not_zero :
  get_idx_parent_node (mkNode 0 5 (-1) None) <> 0.
Proof. discriminate. Qed.

(** C5 (amended): for a node with index 0, whatever its other fields,
    [get_idx_parent_node] returns [-1], the floor of [-1 / 2], which is not
    the node's own index: the root is not its own parent. *)
Theorem parent_of_root_is_minus_one v s d :
  get_idx_parent_node (mkNode 0 v s d) = -1 /\
  get_idx_parent_node (mkNode 0 v s d) <> index (mkNode 0 v s d).
Proof. split; [reflexivity | discriminate]. Qed.

(** ** The store *)

Lemma node_at_Ok h l n : node_at h l = Ok n <-> h !! l = Some (ONode n).
Proof.
  unfold node_at. destruct (h !! l) as [[]|]; split; congruence.
Qed.

Lemma tree_at_Ok h l t : tree_at h l = Ok t <-> h !! l = Some (OTree t).
Proof.
  unfold tree_at. destruct (h !! l) as [[]|]; split; congruence.
Qed.

Lemma dict_at_Ok h l d : dict_at h l = Ok d <-> h !! l = Some (ODict d).
Proof.
  unfold dict_at. destruct (h !! l) as [[]|]; split; congruence.
Qed.

Lemma ints_at_Ok h l a : ints_at h l = Ok a <-> h !! l = Some (ONdInt a).
Proof.
  unfold ints_at. destruct (h !! l) as [[]|]; split; congruence.
Qed.

Lemma floats_at_Ok h l a : floats_at h l = Ok a <-> h !! l = Some (ONdFloat2 a).
Proof.
  unfold floats_at. destruct (h !! l) as [[]|]; split; congruence.
Qed.

(** Objects of the old store are found in an extended store. *)
Lemma lookup_old (h e : heap) l o : h !! l = Some o -> (h ++ e) !! l = Some o.
Proof. intros H. rewrite lookup_app_l; [done|]. now apply lookup_lt_Some in H. Qed.

Lemma lookup_new (h h' e : heap) (i : nat) :
  length h' = length h -> (h' ++ e) !! (length h + i)%nat = e !! i.
Proof. intros <-. rewrite lookup_app_r by lia. f_equal. lia. Qed.

Lemma insert_old (h e : heap) l o o' :
  h !! l = Some o -> <[l := o']> (h ++ e) = <[l := o']> h ++ e.
Proof. intros H. apply insert_app_l. now apply lookup_lt_Some in H. Qed.

Lemma insert_new (h h' e : heap) (i : nat) o :
  length h' = length h ->
  <[(length h + i)%nat := o]> (h' ++ e) = h' ++ <[i := o]> e.
Proof.
  intros <-. rewrite insert_app_r_alt by lia. do 2 f_equal. lia.
Qed.

(** ** Dicts *)

Lemma dict_get_set_eq d k v : dict_get (dict_set d k v) k = Some v.
Proof.
  induction d as [|[k' v'] d IH]; simpl.
  - now rewrite Z.eqb_refl.
  - destruct (Z.eqb_spec k' k) as [->|Hne]; simpl.
    + now rewrite Z.eqb_refl.
    + destruct (Z.eqb_spec k' k); [done|exact IH].
Qed.

Lemma dict_get_set_ne d k k' v :
  k <> k' -> dict_get (dict_set d k v) k' = dict_get d k'.
Proof.
  intros Hne. induction d as [|[k0 v0] d IH]; simpl.
  - destruct (Z.eqb_spec k k'); [done|reflexivity].
  - destruct (Z.eqb_spec k0 k) as [->|Hne0]; simpl.
    + destruct (Z.eqb_spec k k'); [done|reflexivity].
    + destruct (Z.eqb_spec k0 k'); [reflexivity|exact IH].
Qed.

Lemma dict_get_elem (d : dict) k v : dict_get d k = Some v -> (k, v) ∈ d.
Proof.
  induction d as [|[k' v'] d IH]; simpl; [discriminate|].
  destruct (Z.eqb_spec k' k) as [->|Hne].
  - intros [= ->]. apply list_elem_of_here.
  - intros H. apply list_elem_of_further, IH, H.
Qed.

Lemma dict_get_None (d : dict) k : k ∉ map fst d -> dict_get d k = None.
Proof.
  induction d as [|[k' v'] d IH]; simpl; [done|].
  intros Hk. destruct (Z.eqb_spec k' k) as [->|Hne].
  - exfalso. apply Hk. apply list_elem_of_here.
  - apply IH. intros Hin. apply Hk. now apply list_elem_of_further.
Qed.

(** ** Mutation: [set_node] and [delete_leaf_node] *)

(** X7: [set_node] leaves the leaf-index collection as it was, whatever the
    node is: the array built by [np.append] is never stored. *)
Lemma set_node_leaf_indices h t i node h' :
  set_node h t i node = Ok h' -> leaf_indices h' t = leaf_indices h t.
Proof.
  unfold set_node, leaf_indices, tree_at, dict_at.
  destruct (h !! t) as [[| | | |tr]|] eqn:Ht; try discriminate. simpl.
  destruct (h !! tree_structure tr) as [[| | |d|]|] eqn:Hd; try discriminate.
  simpl. intros Hset.
  assert (h' = <[tree_structure tr := ODict (dict_set d i node)]> h) as ->.
  { destruct (node_at _ node); simpl in Hset; [|discriminate].
    destruct (is_leaf_node a); [|congruence].
    destruct (attr (idx_leaf_nodes tr)); simpl in Hset; [|discriminate].
    destruct (ints_at _ a0); simpl in Hset; [|discriminate]. congruence. }
  assert (tree_structure tr <> t) as Hne by (intros E; rewrite E in Hd; congruence).
  rewrite list_lookup_insert_ne, Ht by done. simpl.
  destruct (idx_leaf_nodes tr) as [a|]; simpl; [|done].
  unfold ints_at.
  destruct (decide (tree_structure tr = a)) as [<-|Hna].
  - rewrite Hd. rewrite list_lookup_insert_eq; [done|].
    now apply lookup_lt_Some in Hd.
  - now rewrite list_lookup_insert_ne.
Qed.

(** C2: the tree of Scenario 2, grown through [set_node].  The leaves
    inserted at 1 and 2 are not in [idx_leaf_nodes], and 0, overwritten with a
    split node, still is: the collection is [[0]], as [__init__] left it. *)
Theorem set_node_does_not_register_leaves :
  on scenario2 (fun h t => leaf_indices h t) = Ok [0] /\
  on scenario2 (fun h t => is_leaf_node <$> load h t 0) = Ok false /\
  on scenario2 (fun h t => is_leaf_node <$> load h t 1) = Ok true /\
  on scenario2 (fun h t => is_leaf_node <$> load h t 2) = Ok true.
Proof. repeat split. Qed.

(** [delete_leaf_node] never returns: its first statement calls a method that
    NumPy arrays do not have. *)
Lemma delete_leaf_node_raises h t i : forall h', delete_leaf_node h t i <> Ok h'.
Proof.
  intros h'. unfold delete_leaf_node, ndarray_remove.
  destruct (tree_at h t); simpl; [|discriminate].
  destruct (attr (idx_leaf_nodes a)); simpl; [|discriminate].
  destruct (ints_at h a0); simpl; discriminate.
Qed.

(** C4: on the single-leaf tree of Scenario 1, whose index 0 is registered
    as a leaf, [delete_leaf_node(0)] raises [AttributeError]; nothing is
    removed. *)
Theorem delete_leaf_node_attribute_error :
  on scenario1 (fun h t => delete_leaf_node h t 0) = Raise AttributeError.
Proof. reflexivity. Qed.

(** ** Single-point prediction *)

Lemma load_unfold {A} h t i (k : Node -> result A) :
  (l ← get_node h t i; n ← node_at h l; k n) = (n ← load h t i; k n).
Proof. unfold load. now destruct (get_node h t i). Qed.

(** The collection of leaf values returns the list it was given. *)
Lemma traverse_leaf_values_unchanged fuel h t : forall leaf_values i r,
  _traverse_leaf_values fuel h t leaf_values i = Ok r -> r = leaf_values.
Proof.
  induction fuel as [|fuel IH]; intros lv i r; simpl; [discriminate|].
  destruct (get_node h t i) as [l|]; simpl; [|discriminate].
  destruct (node_at h l) as [n|]; simpl; [|discriminate].
  destruct (is_leaf_node n); [congruence|].
  destruct (_traverse_leaf_values fuel h t lv (get_idx_left_child n)) as [lv1|] eqn:E1;
    simpl; [|discriminate].
  intros E2. apply IH in E1, E2. congruence.
Qed.

(** Whenever the root is a split on an excluded variable and [predict]
    returns, it returns [nan]: the mean is taken over an empty list. *)
Lemma predict_excluded_root_nan fuel h t x excluded n r :
  load h t 0 = Ok n ->
  is_split_node n = true ->
  mem (idx_split_variable n) excluded = true ->
  predict fuel h t x (Some excluded) = Ok r ->
  r = nan.
Proof.
  unfold predict, load. intros Hn Hs Hm.
  destruct fuel as [|fuel]; simpl; [discriminate|].
  destruct (get_node h t 0) as [l|]; simpl in *; [|discriminate].
  rewrite Hn. simpl. unfold is_leaf_node. rewrite Hs, Hm. simpl.
  destruct (_traverse_leaf_values fuel h t [] 0) as [lv|] eqn:E; simpl; [|discriminate].
  apply traverse_leaf_values_unchanged in E. subst lv.
  intros [= <-]. reflexivity.
Qed.

(** C1: on the two-leaf tree of Scenario 2, [predict([0.1], [0])] returns
    [nan], which is not the mean 5.0 of the leaf values 1.0 and 9.0. *)
Theorem scenario2_excluded_mean_is_nan :
  on scenario2 (fun h t => predict 1000 h t [0x1.999999999999ap-4%float] (Some [0]))
    = Ok nan /\
  Ok nan <> Ok 5%float.
Proof. split; [vm_compute; reflexivity | discriminate]. Qed.

(** Without exclusion the same tree predicts as Scenario 2 expects. *)
Example scenario2_predict :
  on scenario2 (fun h t => predict 1000 h t [0x1.999999999999ap-4%float] (Some []))
    = Ok 1%float /\
  on scenario2 (fun h t => predict 1000 h t [0x1.ccccccccccccdp-1%float] (Some []))
    = Ok 9%float.
Proof. split; vm_compute; reflexivity. Qed.

(** ** Termination of the recursive descent *)

Lemma count_ge_mono d k c : k <= c -> (count_ge d c <= count_ge d k)%nat.
Proof.
  intros Hkc. induction d as [|[k' v] d IH]; simpl; [lia|].
  destruct (Z.leb_spec c k'), (Z.leb_spec k k'); lia.
Qed.

Lemma count_ge_lt d k c l :
  k < c -> dict_get d k = Some l -> (count_ge d c < count_ge d k)%nat.
Proof.
  intros Hkc. induction d as [|[k' v] d IH]; simpl; [discriminate|].
  destruct (Z.eqb_spec k' k) as [->|Hne].
  - intros _. pose proof (count_ge_mono d k c).
    destruct (Z.leb_spec c k), (Z.leb_spec k k); lia.
  - intros Hd. specialize (IH Hd).
    destruct (Z.leb_spec c k'), (Z.leb_spec k k'); lia.
Qed.

Lemma count_ge_length d k : (count_ge d k <= length d)%nat.
Proof.
  induction d as [|[k' v] d IH]; simpl; [lia|].
  destruct (k <=? k'); lia.
Qed.

Lemma terminated_bind {A B} (m : result A) (f : A -> result B) :
  terminated m -> (forall a, m = Ok a -> terminated (f a)) -> terminated (m ≫= f).
Proof.
  unfold terminated. destruct m as [a|e]; simpl; intros Hm Hf; [now apply Hf|].
  congruence.
Qed.

Lemma getitem_terminated x i : terminated (getitem x i).
Proof.
  unfold getitem, norm_index.
  destruct (_ && _); simpl; [destruct (x !! _); discriminate|].
  destruct (_ && _); simpl; [destruct (x !! _); discriminate|discriminate].
Qed.

Lemma traverse_leaf_values_S fuel h t lv i :
  _traverse_leaf_values (S fuel) h t lv i =
  n ← load h t i;
  if is_leaf_node n then Ok lv
  else lv ← _traverse_leaf_values fuel h t lv (get_idx_left_child n);
       _traverse_leaf_values fuel h t lv (get_idx_right_child n).
Proof. simpl. now rewrite load_unfold. Qed.

Lemma traverse_tree_S fuel h t x i excluded :
  _traverse_tree (S fuel) h t x i excluded =
  n ← load h t i;
  if is_leaf_node n then Ok (value n)
  else if mem (idx_split_variable n) excluded then
    lv ← _traverse_leaf_values fuel h t [] i; Ok (np_mean lv)
  else
    xv ← getitem x (idx_split_variable n);
    if PrimFloat.leb xv (value n)
    then _traverse_tree fuel h t x (get_idx_left_child n) excluded
    else _traverse_tree fuel h t x (get_idx_right_child n) excluded.
Proof. simpl. now rewrite load_unfold. Qed.

#[local] Arguments _traverse_leaf_values : simpl never.
#[local] Arguments _traverse_tree : simpl never.

(** More fuel does not change the outcome of a call that terminated. *)
Lemma traverse_leaf_values_fuel fuel h t : forall lv i,
  terminated (_traverse_leaf_values fuel h t lv i) ->
  _traverse_leaf_values (S fuel) h t lv i = _traverse_leaf_values fuel h t lv i.
Proof.
  induction fuel as [|fuel IH]; intros lv i Ht; [now contradict Ht|].
  rewrite (traverse_leaf_values_S (S fuel)).
  rewrite (traverse_leaf_values_S fuel h t lv i) in Ht |- *.
  destruct (load h t i) as [n|]; simpl in *; [|done].
  destruct (is_leaf_node n); [done|].
  destruct (_traverse_leaf_values fuel h t lv (get_idx_left_child n)) as [lv1|e] eqn:E1.
  - rewrite IH by (rewrite E1; discriminate). rewrite E1. simpl in *. now apply IH.
  - rewrite IH by (rewrite E1; exact Ht). now rewrite E1.
Qed.

Lemma traverse_tree_fuel fuel h t x excluded : forall i,
  terminated (_traverse_tree fuel h t x i excluded) ->
  _traverse_tree (S fuel) h t x i excluded = _traverse_tree fuel h t x i excluded.
Proof.
  induction fuel as [|fuel IH]; intros i Ht; [now contradict Ht|].
  rewrite (traverse_tree_S (S fuel)).
  rewrite (traverse_tree_S fuel h t x i) in Ht |- *.
  destruct (load h t i) as [n|]; simpl in *; [|done].
  destruct (is_leaf_node n); [done|].
  destruct (mem (idx_split_variable n) excluded).
  - rewrite traverse_leaf_values_fuel; [done|].
    destruct (_traverse_leaf_values fuel h t [] i); [discriminate|].
    intros [= ->]. now apply Ht.
  - destruct (getitem x (idx_split_variable n)) as [xv|]; simpl in *; [|done].
    destruct (PrimFloat.leb xv (value n)); now apply IH.
Qed.

Lemma predict_fuel_le h t x excluded fuel fuel' :
  terminated (predict fuel h t x excluded) -> (fuel <= fuel')%nat ->
  predict fuel' h t x excluded = predict fuel h t x excluded.
Proof.
  unfold predict. intros Ht Hle. induction Hle as [|m Hle IH]; [done|].
  rewrite traverse_tree_fuel; [exact IH|]. now rewrite IH.
Qed.

Section Termination.
Variables (h : heap) (t : loc) (tr : Tree) (d : dict).
Hypothesis Htree : tree_at h t = Ok tr.
Hypothesis Hdict : dict_at h (tree_structure tr) = Ok d.
Hypothesis Hnodes : forall k l, dict_get d k = Some l ->
  exists n, node_at h l = Ok n /\ index n = k /\ 0 <= k < 2 ^ 63 /\
    (if is_split_node n
     then is_Some (dict_get d (k * 2 + 1)) /\ is_Some (dict_get d (k * 2 + 2))
     else dict_get d (k * 2 + 1) = None /\ dict_get d (k * 2 + 2) = None) /\
    (k <> 0 -> is_Some (dict_get d ((k - 1) / 2))).

(** A recursive step from a split node goes to a child index, [2 i + 1] or
    [2 i + 2], which is a key of the dict and larger than [i]. *)
Lemma load_split i n :
  load h t i = Ok n -> is_leaf_node n = false ->
  get_idx_left_child n = i * 2 + 1 /\ get_idx_right_child n = i * 2 + 2 /\
  (count_ge d (i * 2 + 1) < count_ge d i)%nat /\
  (count_ge d (i * 2 + 2) < count_ge d i)%nat.
Proof.
  unfold load, get_node. rewrite Htree. simpl. rewrite Hdict. simpl.
  destruct (dict_get d i) as [l|] eqn:Hl; simpl; [|discriminate].
  intros Hn Hleaf.
  destruct (Hnodes _ _ Hl) as (n' & Hn' & Hidx & Hk & Hch & _).
  assert (n' = n) as -> by congruence.
  unfold is_leaf_node in Hleaf. apply negb_false_iff in Hleaf.
  rewrite Hleaf in Hch. destruct Hch as [_ [r Hr]].
  destruct (Hnodes _ _ Hr) as (_ & _ & _ & Hr2 & _).
  rewrite left_child_index, right_child_index by lia. rewrite Hidx.
  repeat split; eapply count_ge_lt; eauto; lia.
Qed.

Lemma traverse_leaf_values_terminates fuel : forall lv i,
  (count_ge d i < fuel)%nat ->
  terminated (_traverse_leaf_values fuel h t lv i).
Proof.
  induction fuel as [|fuel IH]; intros lv i Hfuel; [lia|].
  rewrite traverse_leaf_values_S.
  apply terminated_bind; [destruct (load h t i) eqn:E; [discriminate|]|].
  - unfold load, get_node in E. rewrite Htree in E. simpl in E.
    rewrite Hdict in E. simpl in E.
    destruct (dict_get d i) as [l|] eqn:Hl; simpl in E; [|intros ?; congruence].
    destruct (Hnodes _ _ Hl) as (n' & Hn' & _). congruence.
  - intros n Hn. destruct (is_leaf_node n) eqn:Hleaf; [discriminate|].
    destruct (load_split _ _ Hn Hleaf) as (-> & -> & Hl & Hr).
    apply terminated_bind; [apply IH; lia|].
    intros lv' _. apply IH; lia.
Qed.

Lemma traverse_tree_terminates x excluded fuel : forall i,
  (S (count_ge d i) < fuel)%nat ->
  terminated (_traverse_tree fuel h t x i excluded).
Proof.
  induction fuel as [|fuel IH]; intros i Hfuel; [lia|].
  rewrite traverse_tree_S.
  apply terminated_bind; [destruct (load h t i) eqn:E; [discriminate|]|].
  - unfold load, get_node in E. rewrite Htree in E. simpl in E.
    rewrite Hdict in E. simpl in E.
    destruct (dict_get d i) as [l|] eqn:Hl; simpl in E; [|intros ?; congruence].
    destruct (Hnodes _ _ Hl) as (n' & Hn' & _). congruence.
  - intros n Hn. destruct (is_leaf_node n) eqn:Hleaf; [discriminate|].
    destruct (load_split _ _ Hn Hleaf) as (-> & -> & Hl & Hr).
    destruct (mem (idx_split_variable n) excluded).
    + apply terminated_bind; [apply traverse_leaf_values_terminates; lia|].
      discriminate.
    + apply terminated_bind; [apply getitem_terminated|].
      intros xv _. destruct (PrimFloat.leb xv (value n)); apply IH; lia.
Qed.
End Termination.

(** In the array numbering a child is one level below its parent: the
    level of index [i] is the binary logarithm of [i + 1], rounded down. *)
Lemma child_level n :
  0 <= index n < 2 ^ 62 - 1 ->
  Z.log2 (get_idx_left_child n + 1) = Z.log2 (index n + 1) + 1 /\
  Z.log2 (get_idx_right_child n + 1) = Z.log2 (index n + 1) + 1.
Proof.
  intros Hi. rewrite left_child_index, right_child_index by lia. split.
  - replace (index n * 2 + 1 + 1) with (2 * (index n + 1)) by lia.
    apply Z.log2_double. lia.
  - replace (index n * 2 + 2 + 1) with (2 * (index n + 1) + 1) by lia.
    apply Z.log2_succ_double. lia.
Qed.

(** C9: on a full binary tree rooted at index 0, every recursive step of
    the descent from a split node at [i] goes to the child index [2 i + 1] or
    [2 i + 2], and [predict] terminates for every point and every exclusion
    set: a recursion limit of two more than the number of nodes is never
    reached, and the outcome is the same under every larger limit. *)
Theorem predict_terminates h t x excluded :
  full_binary_tree h t ->
  (forall i n, load h t i = Ok n -> is_leaf_node n = false ->
     get_idx_left_child n = i * 2 + 1 /\ get_idx_right_child n = i * 2 + 2) /\
  exists fuel r,
    terminated r /\
    forall fuel', (fuel <= fuel')%nat -> predict fuel' h t x excluded = r.
Proof.
  intros (tr & d & Htree & Hdict & _ & Hnodes). split.
  { intros i n Hn Hleaf.
    destruct (load_split h t tr d Htree Hdict Hnodes i n Hn Hleaf) as (Hl & Hr & _).
    now split. }
  exists (S (S (length d))), (predict (S (S (length d))) h t x excluded).
  assert (terminated (predict (S (S (length d))) h t x excluded)) as Hterm.
  { unfold predict.
    eapply traverse_tree_terminates; eauto.
    pose proof (count_ge_length d 0). lia. }
  split; [exact Hterm|].
  intros fuel' Hle. now apply predict_fuel_le.
Qed.

Example scenario2_run : scenario2 = Ok (scenario2_heap, scenario2_tree).
Proof. vm_compute; reflexivity. Qed.

Lemma scenario2_full_binary_tree : full_binary_tree scenario2_heap scenario2_tree.
Proof.
  eexists _, _. split; [reflexivity|]. split; [reflexivity|].
  split; [now eexists|].
  intros k l. cbn [dict_get].
  destruct (Z.eqb_spec 0 k) as [<-|H0];
    [intros [= <-]; eexists; repeat split; simpl; eauto; lia|].
  destruct (Z.eqb_spec 1 k) as [<-|H1];
    [intros [= <-]; eexists; repeat split; simpl; eauto; lia|].
  destruct (Z.eqb_spec 2 k) as [<-|H2];
    [intros [= <-]; eexists; repeat split; simpl; eauto; lia|].
  discriminate.
Qed.

Lemma predict_terminates_witness :
  full_binary_tree scenario2_heap scenario2_tree /\
  (forall i n, load scenario2_heap scenario2_tree i = Ok n ->
     is_leaf_node n = false ->
     get_idx_left_child n = i * 2 + 1 /\ get_idx_right_child n = i * 2 + 2) /\
  exists fuel r,
    terminated r /\
    forall fuel', (fuel <= fuel')%nat ->
      predict fuel' scenario2_heap scenario2_tree
        [0x1.999999999999ap-4%float] (Some [0]) = r.
Proof.
  split; [exact scenario2_full_binary_tree|].
  apply (predict_terminates scenario2_heap scenario2_tree).
  exact scenario2_full_binary_tree.
Defined.

(** ** [_predict] is a scatter write over the registered leaves *)

Lemma norm_index_in_range n i :
  0 <= i < Z.of_nat n -> norm_index n i = Ok (Z.to_nat i).
Proof.
  intros Hi. unfold norm_index.
  destruct (Z.leb_spec 0 i), (Z.ltb_spec i (Z.of_nat n)); simpl; [done|lia..].
Qed.

Lemma mapM_norm_index n idx :
  Forall (fun i => 0 <= i < Z.of_nat n) idx ->
  mapM (norm_index n) idx = Ok (map Z.to_nat idx).
Proof.
  induction 1 as [|i idx Hi _ IH]; [done|].
  cbn [mapM]. fold (mapM (norm_index n)).
  rewrite norm_index_in_range by done. simpl. now rewrite IH.
Qed.

Lemma scatter_length (x : list float) js : forall rs : list (list float),
  length (foldl (fun rs j => <[j := x]> rs) rs js) = length rs.
Proof.
  induction js as [|j js IH]; intros rs; simpl; [done|].
  now rewrite IH, length_insert.
Qed.

Lemma scatter_lookup_in (x : list float) js (r : nat) :
  forall rs : list (list float),
  r ∈ js -> (r < length rs)%nat ->
  foldl (fun rs j => <[j := x]> rs) rs js !! r = Some x.
Proof.
  induction js as [|j js IH]; intros rs Hin Hr; [now apply elem_of_nil in Hin|].
  simpl. destruct (decide (r ∈ js)) as [Hjs|Hjs].
  - apply IH; [done|now rewrite length_insert].
  - apply elem_of_cons in Hin as [->|Hin]; [|done].
    clear IH. revert rs Hr. induction js as [|j' js IH]; intros rs Hr; simpl.
    + now apply list_lookup_insert_eq.
    + apply not_elem_of_cons in Hjs as [Hne Hjs].
      rewrite list_insert_insert_ne by done.
      apply IH; [done|now rewrite length_insert].
Qed.

Lemma scatter_lookup_out (x : list float) js (r : nat) :
  forall rs : list (list float),
  r ∉ js -> foldl (fun rs j => <[j := x]> rs) rs js !! r = rs !! r.
Proof.
  induction js as [|j js IH]; intros rs Hin; [done|]. simpl.
  apply not_elem_of_cons in Hin as [Hne Hjs].
  rewrite IH by done. now apply list_lookup_insert_ne.
Qed.

Section Scatter.
Variables (h : heap) (t out : loc) (b0 : array2).
Hypothesis Hout : h !! out = Some (ONdFloat2 b0).

(** Writing the buffer changes no lookup of a tree, a dict, a node or an
    integer array. *)
Lemma tree_at_buffer b l : tree_at (<[out := ONdFloat2 b]> h) l = tree_at h l.
Proof.
  unfold tree_at. destruct (decide (l = out)) as [->|Hne].
  - rewrite list_lookup_insert_eq, Hout; [done|now apply lookup_lt_Some in Hout].
  - now rewrite list_lookup_insert_ne.
Qed.

Lemma dict_at_buffer b l : dict_at (<[out := ONdFloat2 b]> h) l = dict_at h l.
Proof.
  unfold dict_at. destruct (decide (l = out)) as [->|Hne].
  - rewrite list_lookup_insert_eq, Hout; [done|now apply lookup_lt_Some in Hout].
  - now rewrite list_lookup_insert_ne.
Qed.

Lemma node_at_buffer b l : node_at (<[out := ONdFloat2 b]> h) l = node_at h l.
Proof.
  unfold node_at. destruct (decide (l = out)) as [->|Hne].
  - rewrite list_lookup_insert_eq, Hout; [done|now apply lookup_lt_Some in Hout].
  - now rewrite list_lookup_insert_ne.
Qed.

Lemma ints_at_buffer b l : ints_at (<[out := ONdFloat2 b]> h) l = ints_at h l.
Proof.
  unfold ints_at. destruct (decide (l = out)) as [->|Hne].
  - rewrite list_lookup_insert_eq, Hout; [done|now apply lookup_lt_Some in Hout].
  - now rewrite list_lookup_insert_ne.
Qed.

Lemma floats_at_buffer b : floats_at (<[out := ONdFloat2 b]> h) out = Ok b.
Proof.
  apply floats_at_Ok, list_lookup_insert_eq. now apply lookup_lt_Some in Hout.
Qed.

Lemma leaf_rows_buffer b i :
  leaf_rows (<[out := ONdFloat2 b]> h) t i = leaf_rows h t i.
Proof.
  unfold leaf_rows, get_node. rewrite tree_at_buffer.
  destruct (tree_at h t) as [tr|]; simpl; [|done].
  rewrite dict_at_buffer.
  destruct (dict_at h (tree_structure tr)) as [d|]; simpl; [|done].
  destruct (dict_get d i) as [l|]; simpl; [|done].
  rewrite node_at_buffer. destruct (node_at h l) as [n|]; simpl; [|done].
  destruct (attr (idx_data_points n)) as [idp|]; simpl; [|done].
  now rewrite ints_at_buffer.
Qed.

(** One round of the loop of [_predict]: the rows of the node at [i] are
    filled with its value. *)
Lemma predict_item_spec b i n idx :
  leaf_rows h t i = Ok (n, idx) ->
  Forall (fun r => 0 <= r < Z.of_nat (length (rows b))) idx ->
  predict_item t out (<[out := ONdFloat2 b]> h) i =
  Ok (<[out := ONdFloat2
          (mkArray2 (shape1 b)
             (foldl (fun rs j => <[j := replicate (shape1 b) (value n)]> rs)
                (rows b) (map Z.to_nat idx)))]> h).
Proof.
  intros Hleaf Hidx. rewrite <- (leaf_rows_buffer b) in Hleaf.
  unfold leaf_rows in Hleaf. unfold predict_item.
  destruct (get_node _ t i) as [l|]; simpl in *; [|discriminate].
  destruct (node_at _ l) as [n'|]; simpl in *; [|discriminate].
  destruct (attr (idx_data_points n')) as [idp|]; simpl in *; [|discriminate].
  destruct (ints_at _ idp) as [idx'|]; simpl in *; [|discriminate].
  injection Hleaf as -> ->.
  rewrite floats_at_buffer. simpl. unfold setitem_rows.
  rewrite mapM_norm_index by done. simpl.
  now rewrite list_insert_insert_eq.
Qed.

(** The loop of [_predict], started with the buffer [b]: afterwards a row
    that a registered node owns holds the value of such a node, and a row
    that none owns is as it was. *)
Lemma predict_loop leaves : forall b,
  (forall i, i ∈ leaves -> exists n idx,
     leaf_rows h t i = Ok (n, idx) /\
     Forall (fun r => 0 <= r < Z.of_nat (length (rows b))) idx) ->
  exists b',
    for_each (predict_item t out) leaves (<[out := ONdFloat2 b]> h)
      = Ok (<[out := ONdFloat2 b']> h) /\
    shape1 b' = shape1 b /\ length (rows b') = length (rows b) /\
    forall r, (r < length (rows b))%nat ->
      (exists n, owns h t leaves r n /\
                 rows b' !! r = Some (replicate (shape1 b) (value n))) \/
      ((forall n, ~ owns h t leaves r n) /\ rows b' !! r = rows b !! r).
Proof.
  induction leaves as [|i leaves IH]; intros b Hleaves.
  { exists b. repeat split. intros r _. right. split; [|done].
    intros n (i & idx & Hin & _). now apply elem_of_nil in Hin. }
  destruct (Hleaves i) as (n & idx & Hleaf & Hidx); [apply list_elem_of_here|].
  cbn [for_each]. rewrite (predict_item_spec b i n idx Hleaf Hidx). simpl.
  set (b1 := mkArray2 _ _).
  assert (length (rows b1) = length (rows b)) as Hlen1 by apply scatter_length.
  destruct (IH b1) as (b' & Hloop & Hshape & Hlen & Hrows).
  { intros i' Hin. rewrite Hlen1. now apply Hleaves, list_elem_of_further. }
  exists b'. split; [exact Hloop|]. split; [exact Hshape|].
  split; [congruence|]. intros r Hr.
  destruct (Hrows r) as [(n' & (i' & idx' & Hin' & Hown') & Hrow)|[Hnone Hrow]];
    [lia| |].
  - left. exists n'. split; [|exact Hrow].
    exists i', idx'. split; [now apply list_elem_of_further|exact Hown'].
  - destruct (decide (Z.of_nat r ∈ idx)) as [Hin|Hin].
    + left. exists n. split.
      { exists i, idx. split; [apply list_elem_of_here|done]. }
      rewrite Hrow. apply scatter_lookup_in; [|done].
      apply list_elem_of_fmap. exists (Z.of_nat r). split; [lia|done].
    + right. split.
      * intros n' (i' & idx' & [->|Hin']%elem_of_cons & Hown' & Hr').
        -- rewrite Hleaf in Hown'. now injection Hown' as -> ->.
        -- apply (Hnone n'). now exists i', idx'.
      * rewrite Hrow. apply scatter_lookup_out.
        intros (z & -> & Hz)%list_elem_of_fmap. apply Hin.
        rewrite Forall_forall in Hidx. specialize (Hidx z Hz).
        now rewrite Z2Nat.id by lia.
Qed.
End Scatter.

(** X17: [_predict] on a tree whose registered nodes own disjoint sets of
    rows, all within the buffer: the buffer is written in place, each row owned by
    a registered node gets the value of that node in every column, and the
    transposed buffer is returned. *)
Theorem predict_scatter h t tr out a leaves b :
  h !! t = Some (OTree tr) ->
  output tr = Some out -> h !! out = Some (ONdFloat2 b) ->
  idx_leaf_nodes tr = Some a -> h !! a = Some (ONdInt leaves) ->
  (forall i, i ∈ leaves -> exists n idx,
     leaf_rows h t i = Ok (n, idx) /\
     Forall (fun r => 0 <= r < Z.of_nat (length (rows b))) idx) ->
  (forall r i i' n n' idx idx',
     i ∈ leaves -> i' ∈ leaves ->
     leaf_rows h t i = Ok (n, idx) -> leaf_rows h t i' = Ok (n', idx') ->
     r ∈ idx -> r ∈ idx' -> i = i') ->
  exists b',
    _predict h t = Ok (<[out := ONdFloat2 b']> h, transpose b') /\
    shape1 b' = shape1 b /\ length (rows b') = length (rows b) /\
    (forall r n, (r < length (rows b))%nat -> owns h t leaves r n ->
       rows b' !! r = Some (replicate (shape1 b) (value n))) /\
    (forall r, (forall n, ~ owns h t leaves r n) -> rows b' !! r = rows b !! r).
Proof.
  intros Ht Hout Hb Ha Hleaves Hrows Hdisj.
  destruct (predict_loop h t out b Hb leaves b Hrows)
    as (b' & Hloop & Hshape & Hlen & Hrow).
  rewrite (list_insert_id h out _ Hb) in Hloop.
  exists b'. split; [|split; [done|split; [done|split]]].
  - unfold _predict.
    rewrite (proj2 (tree_at_Ok _ _ _) Ht). simpl. rewrite Hout, Ha. simpl.
    rewrite (proj2 (ints_at_Ok _ _ _) Hleaves). simpl.
    rewrite Hloop. simpl.
    now rewrite (floats_at_buffer h out b Hb b').
  - intros r n Hr (i & idx & Hi & Hleaf & Hin).
    destruct (Hrow r Hr) as [(n' & (i' & idx' & Hi' & Hleaf' & Hin') & ->)|[Hnone _]].
    + assert (i = i') as <- by eauto.
      rewrite Hleaf in Hleaf'. now injection Hleaf' as <- <-.
    + exfalso. apply (Hnone n). now exists i, idx.
  - intros r Hnone. destruct (decide (r < length (rows b))%nat) as [Hr|Hr].
    + destruct (Hrow r Hr) as [(n' & Hown & _)|[_ Heq]]; [|done].
      now apply Hnone in Hown.
    + rewrite !(proj2 (lookup_ge_None _ _)); [done|lia..].
Qed.

(** ** Full-dataset prediction *)

(** On the single leaf of Scenario 1 the buffer is filled with 5.0. *)
Example scenario1_predict_batch :
  on scenario1 (fun h t => snd <$> _predict h t)
    = Ok (mkArray2 3 [[5%float; 5%float; 5%float]]).
Proof. vm_compute; reflexivity. Qed.

(** With the leaves 1 and 2 registered by hand, the tree of Scenario 2
    predicts the three rows as expected. *)
Example scenario2_registered_predict_batch :
  on scenario2_registered (fun h t => snd <$> _predict h t)
    = Ok (mkArray2 3 [[1%float; 1%float; 9%float]]).
Proof. vm_compute; reflexivity. Qed.

(** C3: on the tree of Scenario 2 as [set_node] grows it, [_predict] visits
    index 0 only, the split node, whose [idx_data_points] is empty: no row is
    written and the buffer comes back as it was, all zeros, instead of
    [1.0, 1.0, 9.0]. *)
Theorem scenario2_predict_batch_writes_nothing :
  on scenario2 (fun h t => snd <$> _predict h t)
    = Ok (mkArray2 3 [[0%float; 0%float; 0%float]]) /\
  on scenario2 (fun h t => snd <$> _predict h t)
    <> Ok (mkArray2 3 [[1%float; 1%float; 9%float]]).
Proof. split; [vm_compute; reflexivity | vm_compute; discriminate]. Qed.

(** ** [copy] allocates, and writes to what it allocated *)

(** What a successful [set_node] does to the store. *)
Lemma set_node_Ok h t i node h' tr d :
  set_node h t i node = Ok h' ->
  h !! t = Some (OTree tr) -> h !! tree_structure tr = Some (ODict d) ->
  h' = <[tree_structure tr := ODict (dict_set d i node)]> h.
Proof.
  intros Hset Ht Hd. unfold set_node in Hset.
  apply tree_at_Ok in Ht. apply dict_at_Ok in Hd.
  rewrite Ht in Hset. simpl in Hset. rewrite Hd in Hset. simpl in Hset.
  destruct (node_at _ node) as [n|]; simpl in Hset; [|discriminate].
  destruct (is_leaf_node n); [|congruence].
  destruct (attr (idx_leaf_nodes tr)) as [a|]; simpl in Hset; [|discriminate].
  destruct (ints_at _ a); simpl in Hset; [|discriminate]. congruence.
Qed.

Lemma upd_node_new (h e : heap) (i : nat) n f :
  e !! i = Some (ONode n) ->
  upd_node (h ++ e) (length h + i)%nat f = Ok (h ++ <[i := ONode (f n)]> e).
Proof.
  intros He. unfold upd_node, node_at.
  rewrite lookup_new, He by done. simpl. now rewrite insert_new.
Qed.

(** One round of the loop of [copy]: three objects are allocated, the new
    node with its own array, and the dict of the copy gets the new node. *)
Lemma copy_item_spec tree hc k v hc' vn tc dc :
  hc !! v = Some (ONode vn) ->
  hc !! tree = Some (OTree tc) ->
  hc !! tree_structure tc = Some (ODict dc) ->
  copy_item tree hc (k, v) = Ok hc' ->
  exists arr,
    hc' = <[tree_structure tc := ODict (dict_set dc k (length hc + 1)%nat)]> hc
          ++ [ONdInt [];
              ONode (mkNode (index vn) (value vn) (idx_split_variable vn)
                       (Some (length hc + 2)%nat));
              ONdInt arr].
Proof.
  intros Hv Htree Hdict. unfold copy_item, Node_init, alloc.
  rewrite <- app_assoc, length_app. simpl.
  assert (forall e, node_at (hc ++ e) v = Ok vn) as Hv'
      by (intros e; apply node_at_Ok, lookup_old, Hv).
  rewrite Hv'. simpl.
  erewrite upd_node_new by reflexivity. simpl. rewrite Hv'. simpl.
  erewrite upd_node_new by reflexivity. simpl. rewrite Hv'. simpl.
  destruct (idx_data_points vn) as [a|]; simpl; [|discriminate].
  unfold ints_copy, alloc.
  destruct (ints_at _ a) as [arr|]; simpl; [|discriminate].
  rewrite <- app_assoc, length_app. simpl.
  erewrite upd_node_new by reflexivity. simpl. rewrite Hv'. simpl.
  erewrite upd_node_new by reflexivity. simpl.
  intros Hset. exists arr.
  eapply set_node_Ok in Hset;
    [|apply lookup_old, Htree|apply lookup_old, Hdict].
  rewrite Hset. erewrite insert_old by exact Hdict. reflexivity.
Qed.

Lemma for_each_cons {A} (body : heap -> A -> result heap) a l h h' :
  for_each body (a :: l) h = Ok h' ->
  exists h1, body h a = Ok h1 /\ for_each body l h1 = Ok h'.
Proof.
  cbn [for_each]. destruct (body h a) as [h1|]; [|discriminate].
  intros H. now exists h1.
Qed.

(** The loop of [copy], started in a store [hc] that extends [h0] and in
    which the dict of the new tree is [dc]: every key of [items] ends up
    bound to a copy of its node, the other keys stay as they are in [dc], and
    of the objects of [hc] only the dict of the new tree is written. *)
Lemma copy_loop h0 tree tc : forall items hc dc hc',
  for_each (copy_item tree) items hc = Ok hc' ->
  NoDup (map fst items) ->
  (forall k v, (k, v) ∈ items -> exists vn, h0 !! v = Some (ONode vn)) ->
  (forall l o, h0 !! l = Some o -> hc !! l = Some o) ->
  (length h0 <= length hc)%nat ->
  hc !! tree = Some (OTree tc) ->
  hc !! tree_structure tc = Some (ODict dc) ->
  (length h0 <= tree_structure tc)%nat ->
  exists dc',
    hc' !! tree_structure tc = Some (ODict dc') /\
    (length hc <= length hc')%nat /\
    (forall l, (l < length hc)%nat -> l <> tree_structure tc ->
               hc' !! l = hc !! l) /\
    forall k, match dict_get items k with
              | Some v => exists lc, dict_get dc' k = Some lc /\ copied h0 hc' v lc
              | None => dict_get dc' k = dict_get dc k
              end.
Proof.
  induction items as [|[k0 v0] items IH];
    intros hc dc hc' Hloop Hnodup Hnodes Hold Hlen Htree Hdict Hdl.
  { injection Hloop as <-. exists dc. repeat split; auto. }
  apply for_each_cons in Hloop as (hc1 & Hitem & Hloop).
  destruct (Hnodes k0 v0) as [vn0 Hv0]; [apply list_elem_of_here|].
  destruct (copy_item_spec _ _ _ _ _ _ _ _ (Hold _ _ Hv0) Htree Hdict Hitem)
    as [arr Hhc1].
  set (dl := tree_structure tc) in *.
  set (dc1 := dict_set dc k0 (length hc + 1)%nat) in *.
  assert (dl < length hc)%nat as Hdl' by (now apply lookup_lt_Some in Hdict).
  assert (tree <> dl) as Htdl by (intros ->; congruence).
  assert (length (<[dl := ODict dc1]> hc) = length hc) as Hlen1
      by apply length_insert.
  assert (forall l, (l < length hc)%nat -> l <> dl -> hc1 !! l = hc !! l) as Hframe1.
  { intros l Hl Hne. rewrite Hhc1, lookup_app_l by lia.
    now rewrite list_lookup_insert_ne. }
  assert (hc1 !! dl = Some (ODict dc1)) as Hdict1.
  { rewrite Hhc1, lookup_app_l by lia. now rewrite list_lookup_insert_eq. }
  assert (forall i : nat, hc1 !! (length hc + i)%nat =
            [ONdInt [];
             ONode (mkNode (index vn0) (value vn0) (idx_split_variable vn0)
                      (Some (length hc + 2)%nat));
             ONdInt arr] !! i) as Hnew1.
  { intros i. rewrite Hhc1. now apply lookup_new. }
  assert (length hc1 = length hc + 3)%nat as Hlenhc1.
  { rewrite Hhc1, length_app, Hlen1. reflexivity. }
  apply NoDup_cons in Hnodup as [Hk0 Hnodup].
  destruct (IH hc1 dc1 hc' Hloop Hnodup) as (dc' & Hdict' & Hlen' & Hframe & Hkeys);
    [intros k v Hin; eapply Hnodes, list_elem_of_further, Hin
    |intros l o Hl; rewrite Hframe1;
       [now apply Hold|apply Hold, lookup_lt_Some in Hl; lia
       |apply lookup_lt_Some in Hl; lia]
    |lia|rewrite Hframe1; [done|now apply lookup_lt_Some in Htree|done]
    |done|done|].
  exists dc'. split; [done|]. split; [lia|]. split.
  { intros l Hl Hne. rewrite Hframe by (done || lia). now apply Hframe1. }
  intros k. specialize (Hkeys k). cbn [dict_get].
  destruct (Z.eqb_spec k0 k) as [<-|Hne].
  - rewrite dict_get_None in Hkeys by done.
    exists (length hc + 1)%nat. split.
    { rewrite Hkeys. apply dict_get_set_eq. }
    eexists vn0, _, (length hc + 2)%nat, arr.
    split; [done|]. split.
    { rewrite Hframe by lia. apply (Hnew1 1%nat). }
    split; [done|]. split; [done|]. split; [|lia].
    rewrite Hframe by lia. apply (Hnew1 2%nat).
  - destruct (dict_get items k) as [v|]; [done|].
    rewrite Hkeys. now apply dict_get_set_ne.
Qed.

(** [copy]: the objects of the store it starts from are left as they are;
    the tree it returns, its dict, its two arrays, its nodes and their arrays
    are all new objects; and the new dict binds the keys of the old one, each
    to a copy of its node. *)
Lemma copy_spec h t hc c :
  tree_ok h t -> copy h t = Ok (hc, c) ->
  exists tr d tc dc,
    h !! t = Some (OTree tr) /\ h !! tree_structure tr = Some (ODict d) /\
    (forall l, (l < length h)%nat -> hc !! l = h !! l) /\
    hc !! c = Some (OTree tc) /\ hc !! tree_structure tc = Some (ODict dc) /\
    (length h <= c)%nat /\ (length h <= tree_structure tc)%nat /\
    (exists a, idx_leaf_nodes tc = Some a /\ (length h <= a)%nat /\
               hc !! a = Some (ONdInt [0])) /\
    (exists o o' buf, output tr = Some o /\ h !! o = Some (ONdFloat2 buf) /\
               output tc = Some o' /\ (length h <= o')%nat /\
               hc !! o' = Some (ONdFloat2 buf)) /\
    forall k, match dict_get d k with
              | Some v => exists lc, dict_get dc k = Some lc /\ copied h hc v lc
              | None => dict_get dc k = None
              end.
Proof.
  intros (tr & d & Ht & Hd & Hnodup & Hnodes). unfold copy, get_node.
  rewrite (proj2 (tree_at_Ok _ _ _) Ht). simpl.
  rewrite (proj2 (dict_at_Ok _ _ _) Hd). simpl.
  destruct (dict_get d 0) as [root|] eqn:Hroot; simpl; [|discriminate].
  destruct (Hnodes 0 root) as [rn Hrn]; [now apply dict_get_elem|].
  rewrite (proj2 (node_at_Ok _ _ _) Hrn). simpl.
  destruct (idx_data_points rn) as [idp|]; simpl; [|discriminate].
  destruct (output tr) as [out|] eqn:Hout; simpl; [|discriminate].
  unfold floats_copy, alloc.
  destruct (floats_at h out) as [buf|] eqn:Hbuf; simpl; [|discriminate].
  apply floats_at_Ok in Hbuf.
  unfold Tree_init, Node_init, new_leaf_node, alloc.
  rewrite <- !app_assoc, !length_app. simpl.
  rewrite <- ?Nat.add_assoc. simpl.
  erewrite upd_node_new by reflexivity. simpl.
  erewrite upd_node_new by reflexivity. simpl.
  erewrite upd_node_new by reflexivity. simpl.
  erewrite upd_node_new by reflexivity. simpl.
  rewrite <- !app_assoc, !length_app. simpl.
  rewrite <- ?Nat.add_assoc. simpl.
  rewrite (proj2 (tree_at_Ok _ _ _) (lookup_old _ _ _ _ Ht)). simpl.
  rewrite (proj2 (dict_at_Ok _ _ _) (lookup_old _ _ _ _ Hd)). simpl.
  match goal with |- for_each _ _ ?h0 ≫= _ = _ -> _ => set (hc0 := h0) end.
  destruct (for_each _ d hc0) as [hfin|] eqn:Hloop; simpl; [|discriminate].
  intros [= <- <-].
  assert (forall i : nat, hc0 !! (length h + i)%nat = (drop (length h) hc0) !! i)
    as Hnew by (intros i; now rewrite lookup_drop).
  unfold hc0 in Hnew at 2. rewrite drop_app_length in Hnew.
  assert (length hc0 = length h + 6)%nat as Hlen0
      by (unfold hc0; now rewrite length_app).
  eapply (copy_loop h) in Hloop as (dc & Hdc & Hlen & Hframe & Hkeys);
    [|done|done|intros l o Hl; now apply lookup_old|lia
     |apply (Hnew 5%nat)|apply (Hnew 3%nat)|simpl; lia].
  simpl in Hdc, Hframe.
  exists tr, d. eexists _, dc.
  split; [done|]. split; [done|]. split.
  { intros l Hl. rewrite Hframe by lia. unfold hc0. now rewrite lookup_app_l. }
  split; [rewrite Hframe by lia; apply (Hnew 5%nat)|].
  simpl. split; [done|]. split; [lia|]. split; [lia|]. split.
  { eexists. split; [done|]. split; [|rewrite Hframe by lia; apply (Hnew 4%nat)]. lia. }
  split.
  { exists out, (length h), buf. split; [done|]. split; [done|]. split; [done|].
    split; [lia|]. rewrite Hframe by lia.
    rewrite <- (Nat.add_0_r (length h)) at 1. apply (Hnew 0%nat). }
  intros k. specialize (Hkeys k).
  destruct (dict_get d k) as [v|] eqn:Hk; [done|].
  rewrite Hkeys. cbn [dict_get].
  destruct (Z.eqb_spec 0 k) as [<-|]; [congruence|done].
Qed.

(** ** [tree_ok] is established by [__init__] and kept by [set_node] *)

Lemma Tree_init_ok h v idp out h' t :
  Tree_init h v idp out = Ok (h', t) -> tree_ok h' t.
Proof.
  unfold Tree_init, Node_init, new_leaf_node, alloc.
  rewrite <- !app_assoc, !length_app. simpl.
  erewrite upd_node_new by reflexivity. simpl.
  erewrite upd_node_new by reflexivity. simpl.
  erewrite upd_node_new by reflexivity. simpl.
  erewrite upd_node_new by reflexivity. simpl.
  rewrite <- !app_assoc, !length_app. simpl.
  rewrite <- ?Nat.add_assoc. simpl.
  intros [= <- <-].
  exists (mkTree (length h + 2) (Some (length h + 3)%nat) (Some out) v),
    [(0, (length h + 1)%nat)].
  split; [now rewrite lookup_new|].
  split; [cbn [tree_structure]; now rewrite lookup_new|].
  split; [apply NoDup_singleton|].
  intros k l Hin. apply list_elem_of_singleton in Hin as [= -> ->].
  eexists. now rewrite lookup_new.
Qed.

Lemma dict_set_elem (d : dict) k v k' v' :
  (k', v') ∈ dict_set d k v -> (k', v') = (k, v) \/ (k', v') ∈ d.
Proof.
  induction d as [|[k0 v0] d IH]; simpl.
  - intros ->%list_elem_of_singleton. now left.
  - destruct (Z.eqb_spec k0 k) as [->|Hne].
    + intros [->|Hin]%elem_of_cons; [now left|].
      right. now apply list_elem_of_further.
    + intros [->|Hin]%elem_of_cons; [right; apply list_elem_of_here|].
      destruct (IH Hin); [now left|right; now apply list_elem_of_further].
Qed.

Lemma dict_set_key (d : dict) k v k' :
  k' ∈ map fst (dict_set d k v) -> k' = k \/ k' ∈ map fst d.
Proof.
  intros ([k0 v0] & -> & Hin)%list_elem_of_fmap.
  destruct (dict_set_elem _ _ _ _ _ Hin) as [[= -> ->]|Hd]; [now left|right].
  apply list_elem_of_fmap. now exists (k0, v0).
Qed.

Lemma dict_set_NoDup (d : dict) k v :
  NoDup (map fst d) -> NoDup (map fst (dict_set d k v)).
Proof.
  induction d as [|[k0 v0] d IH]; simpl; [intros _; apply NoDup_singleton|].
  intros [Hk0 Hd]%NoDup_cons.
  destruct (Z.eqb_spec k0 k) as [->|Hne]; simpl; apply NoDup_cons.
  - done.
  - split; [|now apply IH].
    intros [->|Hin]%dict_set_key; done.
Qed.

Lemma set_node_ok h t k node n h' :
  tree_ok h t -> h !! node = Some (ONode n) ->
  set_node h t k node = Ok h' -> tree_ok h' t.
Proof.
  intros (tr & d & Ht & Hd & Hnodup & Hnodes) Hnode Hset.
  rewrite (set_node_Ok _ _ _ _ _ _ _ Hset Ht Hd).
  exists tr, (dict_set d k node).
  assert (tree_structure tr < length h)%nat by (now apply lookup_lt_Some in Hd).
  split; [rewrite list_lookup_insert_ne; [done|congruence]|].
  split; [now rewrite list_lookup_insert_eq|].
  split; [now apply dict_set_NoDup|].
  intros k' v' [[= -> ->]|Hin]%dict_set_elem.
  - exists n. rewrite list_lookup_insert_ne; [done|congruence].
  - destruct (Hnodes _ _ Hin) as [n' Hn'].
    exists n'. rewrite list_lookup_insert_ne; [done|congruence].
Qed.

(** ** The copy shares no object with the tree *)

(** Writing to an object allocated after [h] leaves [h] as it is. *)
Lemma take_insert_new (h hc : heap) l o :
  (length h <= l)%nat -> take (length h) (<[l := o]> hc) = take (length h) hc.
Proof. intros Hl. now apply take_insert_ge. Qed.

(** X14: the store [h] of before the call is a prefix of the store after
    [copy]: no object of [h], in particular none that the tree [t] reaches,
    has been written.  The copy and all it refers to (its dict, its
    [idx_leaf_nodes], its [output], every node of its dict and the
    [idx_data_points] of every node) are objects allocated by the call,
    outside [h].  Hence inserting nodes into the copy with [set_node], or
    writing to any array of the copy, leaves [h] as it is. *)
Theorem copy_shares_nothing h t hc c :
  tree_ok h t -> copy h t = Ok (hc, c) ->
  take (length h) hc = h /\
  (exists tc a o,
     tree_at hc c = Ok tc /\ (length h <= c)%nat /\
     (length h <= tree_structure tc)%nat /\
     idx_leaf_nodes tc = Some a /\ (length h <= a)%nat /\
     output tc = Some o /\ (length h <= o)%nat) /\
  (forall k lc, get_node hc c k = Ok lc ->
     exists nc a, node_at hc lc = Ok nc /\ (length h <= lc)%nat /\
       idx_data_points nc = Some a /\ (length h <= a)%nat) /\
  (forall k node h2, set_node hc c k node = Ok h2 -> take (length h) h2 = h).
Proof.
  intros Hok Hcopy.
  destruct (copy_spec _ _ _ _ Hok Hcopy)
    as (tr & d & tc & dc & Ht & Hd & Hframe & Hc & Hdc & Hlc & Hldc
        & (a & Ha & Hla & _) & (o & o' & buf & _ & _ & Ho' & Hlo' & _) & Hkeys).
  assert (take (length h) hc = h) as Hprefix.
  { apply list_eq. intros i. destruct (decide (i < length h)%nat) as [Hi|Hi].
    - rewrite lookup_take_lt by done. now apply Hframe.
    - rewrite lookup_take_ge by lia. symmetry. apply lookup_ge_None. lia. }
  split; [exact Hprefix|]. split.
  { exists tc, a, o'. now rewrite (proj2 (tree_at_Ok _ _ _) Hc). }
  split.
  - intros k lc. unfold get_node.
    rewrite (proj2 (tree_at_Ok _ _ _) Hc). simpl.
    rewrite (proj2 (dict_at_Ok _ _ _) Hdc). simpl.
    specialize (Hkeys k). destruct (dict_get dc k) as [lc'|] eqn:Hk; [|discriminate].
    intros [= ->]. destruct (dict_get d k) as [v|]; [|discriminate].
    destruct Hkeys as (lc' & [= <-] & vn & nc & a' & arr & _ & Hnc & _ & Hidp & _ & Hl1 & Hl2).
    exists nc, a'. now rewrite (proj2 (node_at_Ok _ _ _) Hnc).
  - intros k node h2 Hset.
    rewrite (set_node_Ok _ _ _ _ _ _ _ Hset Hc Hdc).
    now rewrite take_insert_new.
Qed.

(** ** The copy of a tree with registered leaves *)

(** C7: for the tree of Scenario 2 with its leaves registered, in one run
    [c = T.copy()], [c._predict()], [T._predict()]: the copy predicts zeros
    where the tree itself predicts [1.0, 1.0, 9.0].  The copy is rebuilt
    through [set_node], so its [idx_leaf_nodes] is [[0]] where the tree has
    [[1, 2]]. *)
Theorem copy_predict_batch_differs :
  on scenario2_registered
    (fun h t => '(h, c) ← copy h t;
                '(h, rc) ← _predict h c;
                '(h, rt) ← _predict h t;
                Ok (rc, rt))
    = Ok (mkArray2 3 [[0%float; 0%float; 0%float]],
          mkArray2 3 [[1%float; 1%float; 9%float]]) /\
  on scenario2_registered
    (fun h t => '(h, c) ← copy h t;
                lc ← leaf_indices h c;
                lt ← leaf_indices h t;
                Ok (lc, lt))
    = Ok ([0], [1; 2]).
Proof. split; vm_compute; reflexivity. Qed.

(** The tree of Scenario 2 has the typing of [tree_ok]. *)
Lemma scenario2_tree_ok : tree_ok scenario2_heap scenario2_tree.
Proof.
  eexists _, _. split; [reflexivity|]. split; [reflexivity|]. split.
  - apply (bool_decide_unpack _). vm_compute. exact I.
  - intros k v Hin. apply list_elem_of_In in Hin. simpl in Hin.
    destruct Hin as [[= <- <-]|[[= <- <-]|[[= <- <-]|[]]]]; now eexists.
Qed.

(** * Further properties *)

(** ** Nodes *)

(** X1: in the array numbering the parent of both children of a node is
    the node itself, the right child comes right after the left one, and
    both lie further down than the node. *)
Theorem children_parent_round_trip n :
  0 <= index n < 2 ^ 62 - 1 ->
  get_idx_parent_node (with_index (get_idx_left_child n) n) = index n /\
  get_idx_parent_node (with_index (get_idx_right_child n) n) = index n /\
  get_idx_right_child n = get_idx_left_child n + 1 /\
  index n < get_idx_left_child n.
Proof.
  intros Hi. rewrite right_child_index, left_child_index by lia.
  unfold get_idx_parent_node. cbn [index with_index].
  rewrite !int64_wrap_id by lia.
  repeat split; try lia.
  - symmetry. apply Z.div_unique with 0; lia.
  - symmetry. apply Z.div_unique with 1; lia.
Qed.

Lemma children_parent_round_trip_witness :
  0 <= index (mkNode 5 3 2 None) < 2 ^ 62 - 1 /\
  get_idx_parent_node (with_index (get_idx_left_child (mkNode 5 3 2 None))
                         (mkNode 5 3 2 None)) = 5 /\
  get_idx_parent_node (with_index (get_idx_right_child (mkNode 5 3 2 None))
                         (mkNode 5 3 2 None)) = 5 /\
  get_idx_right_child (mkNode 5 3 2 None)
  = get_idx_left_child (mkNode 5 3 2 None) + 1 /\
  5 < get_idx_left_child (mkNode 5 3 2 None).
Proof.
  split; [simpl; lia|].
  apply (children_parent_round_trip (mkNode 5 3 2 None)). simpl. lia.
Defined.

Lemma upd_node_old (h : heap) self n f :
  h !! self = Some (ONode n) ->
  upd_node h self f = Ok (<[self := ONode (f n)]> h).
Proof. intros Hn. unfold upd_node. now rewrite (proj2 (node_at_Ok _ _ _) Hn). Qed.

Lemma lookup_insert_same (h : heap) l o o' :
  h !! l = Some o -> <[l := o']> h !! l = Some o'.
Proof. intros Hl. apply list_lookup_insert_eq. now apply lookup_lt_Some in Hl. Qed.

(** X2: [new_leaf_node] on any node, whatever it was before, makes it a
    leaf with the given index and value.  The array it is given is not
    copied: the node refers to the caller's array.  No other object of the
    store is written and [self] is returned. *)
Theorem new_leaf_node_spec (h : heap) self n i v idp :
  h !! self = Some (ONode n) ->
  exists h',
    new_leaf_node h self i v idp = Ok (h', self) /\
    node_at h' self = Ok (mkNode i v (-1) (Some idp)) /\
    (is_leaf_node <$> node_at h' self) = Ok true /\
    length h' = length h /\
    forall l, l <> self -> h' !! l = h !! l.
Proof.
  intros Hn. exists (<[self := ONode (mkNode i v (-1) (Some idp))]> h).
  assert (new_leaf_node h self i v idp
          = Ok (<[self := ONode (mkNode i v (-1) (Some idp))]> h, self)) as Hnew.
  { unfold new_leaf_node.
    rewrite (upd_node_old _ _ _ _ Hn). simpl.
    erewrite upd_node_old by (eapply lookup_insert_same, Hn). simpl.
    rewrite list_insert_insert_eq.
    erewrite upd_node_old by (eapply lookup_insert_same, Hn). simpl.
    rewrite list_insert_insert_eq.
    erewrite upd_node_old by (eapply lookup_insert_same, Hn). simpl.
    now rewrite list_insert_insert_eq. }
  assert (node_at (<[self := ONode (mkNode i v (-1) (Some idp))]> h) self
          = Ok (mkNode i v (-1) (Some idp))) as Hat
      by (eapply node_at_Ok, lookup_insert_same, Hn).
  split; [exact Hnew|]. split; [exact Hat|]. split; [now rewrite Hat|].
  split; [apply length_insert|].
  intros l Hne. now apply list_lookup_insert_ne.
Qed.

Lemma new_leaf_node_spec_witness :
  scenario1_heap !! 3%nat = Some (ONode (mkNode 0 5 (-1) (Some 0%nat))) /\
  exists h',
    new_leaf_node scenario1_heap 3 7 2 0%nat = Ok (h', 3%nat) /\
    node_at h' 3 = Ok (mkNode 7 2 (-1) (Some 0%nat)) /\
    (is_leaf_node <$> node_at h' 3) = Ok true /\
    length h' = length scenario1_heap /\
    forall l, l <> 3%nat -> h' !! l = scenario1_heap !! l.
Proof.
  split; [reflexivity|].
  apply (new_leaf_node_spec scenario1_heap 3 (mkNode 0 5 (-1) (Some 0%nat))).
  reflexivity.
Defined.

(** X3: [new_split_node] on any node makes it a node with the given index,
    threshold and variable, and a new, empty [idx_data_points] of its own.
    The node is a split node exactly when the variable is not negative: with
    a negative variable the result is a leaf. *)
Theorem new_split_node_spec (h : heap) self n i v var :
  h !! self = Some (ONode n) ->
  exists h',
    new_split_node h self i v var = Ok (h', self) /\
    node_at h' self = Ok (mkNode i v var (Some (length h))) /\
    ints_at h' (length h) = Ok [] /\
    (is_split_node <$> node_at h' self) = Ok (0 <=? var) /\
    (is_leaf_node <$> node_at h' self) = Ok (var <? 0) /\
    length h' = S (length h) /\
    forall l, l <> self -> (l < length h)%nat -> h' !! l = h !! l.
Proof.
  intros Hn.
  assert (self < length h)%nat as Hlt by (now apply lookup_lt_Some in Hn).
  exists (<[self := ONode (mkNode i v var (Some (length h)))]> (h ++ [ONdInt []])).
  assert (new_split_node h self i v var
          = Ok (<[self := ONode (mkNode i v var (Some (length h)))]>
                  (h ++ [ONdInt []]), self)) as Hnew.
  { unfold new_split_node, alloc.
    rewrite (upd_node_old _ _ _ _ Hn). simpl.
    erewrite upd_node_old by (eapply lookup_insert_same, Hn). simpl.
    rewrite list_insert_insert_eq, length_insert.
    erewrite upd_node_old
      by (eapply lookup_old, lookup_insert_same, Hn).
    simpl.
    erewrite upd_node_old
      by (eapply lookup_insert_same, lookup_old, lookup_insert_same, Hn).
    simpl.
    rewrite list_insert_insert_eq.
    rewrite insert_app_l by (now rewrite length_insert).
    now rewrite list_insert_insert_eq, <- insert_app_l. }
  assert (node_at (<[self := ONode (mkNode i v var (Some (length h)))]>
                     (h ++ [ONdInt []])) self
          = Ok (mkNode i v var (Some (length h)))) as Hat
      by (eapply node_at_Ok, lookup_insert_same, lookup_old, Hn).
  split; [exact Hnew|]. split; [exact Hat|]. split.
  { apply ints_at_Ok. rewrite list_lookup_insert_ne by lia.
    rewrite lookup_app_r by lia. now rewrite Nat.sub_diag. }
  split; [now rewrite Hat|]. split.
  { rewrite Hat. simpl. unfold is_leaf_node, is_split_node. simpl.
    f_equal. destruct (Z.leb_spec 0 var), (Z.ltb_spec var 0); simpl; lia. }
  split; [rewrite length_insert, length_app; simpl; lia|].
  intros l Hne Hl. rewrite list_lookup_insert_ne by done.
  now apply lookup_app_l.
Qed.

Lemma new_split_node_spec_witness :
  scenario1_heap !! 3%nat = Some (ONode (mkNode 0 5 (-1) (Some 0%nat))) /\
  exists h',
    new_split_node scenario1_heap 3 0 0.5 (-4) = Ok (h', 3%nat) /\
    node_at h' 3 = Ok (mkNode 0 0.5 (-4) (Some (length scenario1_heap))) /\
    ints_at h' (length scenario1_heap) = Ok [] /\
    (is_split_node <$> node_at h' 3) = Ok (0 <=? -4) /\
    (is_leaf_node <$> node_at h' 3) = Ok (-4 <? 0) /\
    length h' = S (length scenario1_heap) /\
    forall l, l <> 3%nat -> (l < length scenario1_heap)%nat ->
              h' !! l = scenario1_heap !! l.
Proof.
  split; [reflexivity|].
  apply (new_split_node_spec scenario1_heap 3 (mkNode 0 5 (-1) (Some 0%nat))).
  reflexivity.
Defined.

(** ** A new tree *)

(** What [Tree(v, idp, out)] allocates: an empty array and the root node
    (from [Node()]), the dict, [idx_leaf_nodes] and the tree. *)
Lemma Tree_init_eq (h : heap) v idp out :
  Tree_init h v idp out =
  Ok (h ++ [ONdInt []; ONode (mkNode 0 v (-1) (Some idp));
            ODict [(0, (length h + 1)%nat)]; ONdInt [0];
            OTree (mkTree (length h + 2) (Some (length h + 3)%nat) (Some out) v)],
      (length h + 4)%nat).
Proof.
  unfold Tree_init, Node_init, new_leaf_node, alloc.
  rewrite <- !app_assoc, !length_app. simpl.
  erewrite upd_node_new by reflexivity. simpl.
  erewrite upd_node_new by reflexivity. simpl.
  erewrite upd_node_new by reflexivity. simpl.
  erewrite upd_node_new by reflexivity. simpl.
  rewrite <- !app_assoc, !length_app. simpl.
  rewrite <- ?Nat.add_assoc. simpl. reflexivity.
Qed.

(** X4: the constructor never fails and writes no object of the store it
    starts from.  The new tree has one node, a leaf at index 0 with the
    given value that refers to the caller's [idx_data_points]; every other
    index is a [KeyError]; [idx_leaf_nodes] is [[0]]; it has no split
    variable; and its [output] is the caller's buffer. *)
Theorem Tree_init_fresh (h : heap) v idp out :
  exists h' t,
    Tree_init h v idp out = Ok (h', t) /\
    take (length h) h' = h /\ (length h <= t)%nat /\
    load h' t 0 = Ok (mkNode 0 v (-1) (Some idp)) /\
    (forall k, k <> 0 -> get_node h' t k = Raise KeyError) /\
    leaf_indices h' t = Ok [0] /\
    get_split_variables h' t = Ok [] /\
    (output <$> tree_at h' t) = Ok (Some out).
Proof.
  eexists _, _. split; [apply Tree_init_eq|].
  set (h' := h ++ _).
  assert (forall i : nat, h' !! (length h + i)%nat = drop (length h) h' !! i)
    as Hnew by (intros i; now rewrite lookup_drop).
  unfold h' in Hnew at 2. rewrite drop_app_length in Hnew.
  assert (tree_at h' (length h + 4)
          = Ok (mkTree (length h + 2) (Some (length h + 3)%nat) (Some out) v))
    as Htree by (apply tree_at_Ok, (Hnew 4%nat)).
  assert (dict_at h' (length h + 2) = Ok [(0, (length h + 1)%nat)])
    as Hdict by (apply dict_at_Ok, (Hnew 2%nat)).
  assert (node_at h' (length h + 1) = Ok (mkNode 0 v (-1) (Some idp)))
    as Hnode by (apply node_at_Ok, (Hnew 1%nat)).
  assert (load h' (length h + 4) 0 = Ok (mkNode 0 v (-1) (Some idp))) as Hload.
  { unfold load, get_node. rewrite Htree. simpl. rewrite Hdict. simpl.
    exact Hnode. }
  split; [apply take_app_length|]. split; [lia|]. split; [exact Hload|].
  split.
  { intros k Hk. unfold get_node. rewrite Htree. simpl. rewrite Hdict.
    cbn [mbind result_bind dict_get].
    destruct (Z.eqb_spec 0 k); [congruence|done]. }
  split.
  { unfold leaf_indices. rewrite Htree. simpl.
    apply ints_at_Ok, (Hnew 3%nat). }
  split.
  { unfold get_split_variables. rewrite Htree. simpl. rewrite Hdict. simpl.
    now rewrite Hnode. }
  now rewrite Htree.
Qed.

(** X5: the first [_predict] of a new tree writes into the caller's buffer:
    the rows named by [idx_data_points] hold the leaf value in every column,
    the other rows are as they were, and the transposed buffer is returned. *)
Theorem Tree_init_predict (h : heap) v idp idx out b :
  h !! idp = Some (ONdInt idx) ->
  h !! out = Some (ONdFloat2 b) ->
  Forall (fun r => 0 <= r < Z.of_nat (length (rows b))) idx ->
  exists h1 t b',
    Tree_init h v idp out = Ok (h1, t) /\
    _predict h1 t = Ok (<[out := ONdFloat2 b']> h1, transpose b') /\
    shape1 b' = shape1 b /\ length (rows b') = length (rows b) /\
    forall r : nat, (r < length (rows b))%nat ->
      rows b' !! r = if decide (Z.of_nat r ∈ idx)
                     then Some (replicate (shape1 b) v)
                     else rows b !! r.
Proof.
  intros Hidp Hout Hidx. rewrite Tree_init_eq.
  set (h1 := h ++ _).
  set (b' := mkArray2 (shape1 b)
               (foldl (fun rs j => <[j := replicate (shape1 b) v]> rs)
                  (rows b) (map Z.to_nat idx))).
  exists h1, (length h + 4)%nat, b'.
  assert (forall i : nat, h1 !! (length h + i)%nat = drop (length h) h1 !! i)
    as Hnew by (intros i; now rewrite lookup_drop).
  unfold h1 in Hnew at 2. rewrite drop_app_length in Hnew.
  assert (h1 !! out = Some (ONdFloat2 b)) as Hout1 by (now apply lookup_old).
  assert (leaf_rows h1 (length h + 4) 0 = Ok (mkNode 0 v (-1) (Some idp), idx))
    as Hleaf.
  { unfold leaf_rows, get_node.
    rewrite (proj2 (tree_at_Ok _ _ _) (Hnew 4%nat)). simpl.
    rewrite (proj2 (dict_at_Ok _ _ _) (Hnew 2%nat)). simpl.
    rewrite (proj2 (node_at_Ok _ _ _) (Hnew 1%nat)). simpl.
    assert (ints_at h1 idp = Ok idx) as ->
        by (apply ints_at_Ok, lookup_old, Hidp).
    reflexivity. }
  split; [done|]. split.
  { unfold _predict.
    rewrite (proj2 (tree_at_Ok _ _ _) (Hnew 4%nat)). simpl.
    rewrite (proj2 (ints_at_Ok _ _ _) (Hnew 3%nat)). simpl.
    rewrite <- (list_insert_id h1 out _ Hout1) at 1.
    rewrite (predict_item_spec h1 _ out b Hout1 b 0 _ idx Hleaf Hidx). simpl.
    now rewrite (floats_at_buffer h1 out b Hout1). }
  split; [done|]. split; [apply scatter_length|].
  intros r Hr. unfold b'. cbn [rows]. case_decide as Hin.
  - apply scatter_lookup_in; [|done].
    apply list_elem_of_fmap. exists (Z.of_nat r). split; [lia|done].
  - apply scatter_lookup_out.
    intros (z & -> & Hz)%list_elem_of_fmap. apply Hin.
    rewrite Forall_forall in Hidx. specialize (Hidx z Hz).
    now rewrite Z2Nat.id by lia.
Qed.

Lemma Tree_init_predict_witness :
  three_rows !! 0%nat = Some (ONdInt [0; 1; 2]) /\
  three_rows !! 1%nat
    = Some (ONdFloat2 (mkArray2 1 [[0%float]; [0%float]; [0%float]])) /\
  exists h1 t b',
    Tree_init three_rows 5 0%nat 1%nat = Ok (h1, t) /\
    _predict h1 t = Ok (<[1%nat := ONdFloat2 b']> h1, transpose b') /\
    shape1 b' = 1%nat /\ length (rows b') = 3%nat /\
    forall r : nat, (r < 3)%nat ->
      rows b' !! r = if decide (Z.of_nat r ∈ [0; 1; 2])
                     then Some (replicate 1 5%float)
                     else [[0%float]; [0%float]; [0%float]] !! r.
Proof.
  split; [reflexivity|]. split; [reflexivity|].
  apply (Tree_init_predict three_rows 5 0%nat [0; 1; 2] 1%nat
           (mkArray2 1 [[0%float]; [0%float]; [0%float]]));
    [reflexivity|reflexivity|].
  repeat constructor; simpl; lia.
Defined.

(** ** [set_node] and [get_node] *)

(** X6: after [set_node(i, node)], [get_node(i)] is [node] and every other
    index looks up as before; the call writes the dict of the tree and no
    other object. *)
Theorem set_node_get_node (h : heap) t i node h' :
  set_node h t i node = Ok h' ->
  get_node h' t i = Ok node /\
  (forall j, j <> i -> get_node h' t j = get_node h t j) /\
  length h' = length h /\
  exists tr, tree_at h t = Ok tr /\
             forall l, l <> tree_structure tr -> h' !! l = h !! l.
Proof.
  intros Hset.
  destruct (tree_at h t) as [tr|] eqn:Ht;
    [|unfold set_node in Hset; rewrite Ht in Hset; discriminate].
  destruct (dict_at h (tree_structure tr)) as [d|] eqn:Hd;
    [|unfold set_node in Hset; rewrite Ht in Hset; simpl in Hset;
      rewrite Hd in Hset; discriminate].
  apply tree_at_Ok in Ht. apply dict_at_Ok in Hd.
  rewrite (set_node_Ok _ _ _ _ _ _ _ Hset Ht Hd).
  assert (tree_structure tr <> t) as Hne by (intros E; rewrite E in Hd; congruence).
  assert (forall j, get_node (<[tree_structure tr := ODict (dict_set d i node)]> h) t j
                    = match dict_get (dict_set d i node) j with
                      | Some n => Ok n
                      | None => Raise KeyError
                      end) as Hget.
  { intros j. unfold get_node, tree_at, dict_at.
    rewrite list_lookup_insert_ne, Ht by done. simpl.
    now rewrite (lookup_insert_same _ _ _ _ Hd). }
  split; [now rewrite Hget, dict_get_set_eq|]. split.
  { intros j Hj. rewrite Hget, dict_get_set_ne by done.
    unfold get_node. rewrite (proj2 (tree_at_Ok _ _ _) Ht). simpl.
    now rewrite (proj2 (dict_at_Ok _ _ _) Hd). }
  split; [apply length_insert|].
  exists tr. split; [reflexivity|].
  intros l Hl. now apply list_lookup_insert_ne.
Qed.

Lemma set_node_get_node_witness :
  exists h',
    set_node scenario2_heap scenario2_tree 5 12%nat = Ok h' /\
    get_node h' scenario2_tree 5 = Ok 12%nat /\
    (forall j, j <> 5 ->
       get_node h' scenario2_tree j = get_node scenario2_heap scenario2_tree j) /\
    length h' = length scenario2_heap /\
    exists tr, tree_at scenario2_heap scenario2_tree = Ok tr /\
               forall l, l <> tree_structure tr -> h' !! l = scenario2_heap !! l.
Proof.
  eexists. split; [vm_compute; reflexivity|].
  apply (set_node_get_node scenario2_heap scenario2_tree 5 12%nat).
  vm_compute; reflexivity.
Defined.

Lemma set_node_leaf_indices_witness :
  exists h',
    set_node scenario1_heap scenario1_tree 1 3%nat = Ok h' /\
    (is_leaf_node <$> load h' scenario1_tree 1) = Ok true /\
    leaf_indices h' scenario1_tree = leaf_indices scenario1_heap scenario1_tree.
Proof.
  eexists. split; [vm_compute; reflexivity|]. split; [reflexivity|].
  apply (set_node_leaf_indices scenario1_heap scenario1_tree 1 3%nat).
  vm_compute; reflexivity.
Defined.

(** ** [get_split_variables] *)

Lemma mapM_Ok {A B} (f : A -> result B) (l : list A) (k : list B) :
  mapM f l = Ok k -> Forall2 (fun x y => f x = Ok y) l k.
Proof.
  revert k. induction l as [|x l IH]; intros k; cbn [mapM].
  - intros [= <-]. constructor.
  - fold (mapM f). destruct (f x) as [y|] eqn:Hx; simpl; [|discriminate].
    destruct (mapM f l) as [k'|]; simpl; [|discriminate].
    intros [= <-]. constructor; [done|now apply IH].
Qed.

(** X8: every entry of [get_split_variables] is the variable of a split
    node of the tree, hence not negative, and the variable of every split
    node of the tree is an entry. *)
Theorem get_split_variables_spec (h : heap) t vars :
  tree_ok h t ->
  get_split_variables h t = Ok vars ->
  Forall (fun v => 0 <= v) vars /\
  forall v, v ∈ vars <->
    exists k n, load h t k = Ok n /\ is_split_node n = true /\
                idx_split_variable n = v.
Proof.
  intros (tr & d & Ht & Hd & Hnodup & Hnodes). unfold get_split_variables.
  rewrite (proj2 (tree_at_Ok _ _ _) Ht). simpl.
  rewrite (proj2 (dict_at_Ok _ _ _) Hd). simpl.
  destruct (mapM (node_at h) (map snd d)) as [ns|] eqn:Hns; simpl; [|discriminate].
  intros [= <-]. apply mapM_Ok in Hns.
  assert (forall k, load h t k = match dict_get d k with
                                 | Some l => node_at h l
                                 | None => Raise KeyError
                                 end) as Hload.
  { intros k. unfold load, get_node.
    rewrite (proj2 (tree_at_Ok _ _ _) Ht). simpl.
    rewrite (proj2 (dict_at_Ok _ _ _) Hd). simpl.
    now destruct (dict_get d k). }
  assert (forall n, n ∈ ns <-> exists k, load h t k = Ok n) as Hmem.
  { intros n. split.
    - intros Hin. apply list_elem_of_lookup in Hin as [j Hj].
      destruct (Forall2_lookup_r _ _ _ _ _ Hns Hj) as (l & Hl & Hat).
      change (map snd d) with (snd <$> d) in Hl.
      apply list_lookup_fmap_Some_1 in Hl as ([k l'] & -> & Hkl). simpl in Hat.
      exists k. rewrite Hload.
      assert (dict_get d k = Some l') as ->; [|exact Hat].
      clear -Hkl Hnodup. revert j Hkl.
      induction d as [|[k0 l0] d IH]; intros j Hkl; [done|].
      simpl in Hnodup. apply NoDup_cons in Hnodup as [Hk0 Hnodup].
      destruct j as [|j]; simpl in Hkl.
      + injection Hkl as -> ->. simpl. now rewrite Z.eqb_refl.
      + simpl. destruct (Z.eqb_spec k0 k) as [->|Hne]; [|now apply (IH Hnodup j)].
        exfalso. apply Hk0. apply list_elem_of_fmap. exists (k, l').
        split; [done|]. now apply list_elem_of_lookup_2 in Hkl.
    - intros [k Hk]. rewrite Hload in Hk.
      destruct (dict_get d k) as [l|] eqn:Hl; [|discriminate].
      apply dict_get_elem in Hl.
      assert (l ∈ map snd d) as Hin
          by (apply list_elem_of_fmap; now exists (k, l)).
      apply list_elem_of_lookup in Hin as [j Hj].
      destruct (Forall2_lookup_l _ _ _ _ _ Hns Hj) as (n' & Hn' & Hat).
      assert (n' = n) as -> by congruence.
      now apply list_elem_of_lookup_2 in Hn'. }
  split.
  - apply Forall_forall. intros v (n & -> & Hn)%list_elem_of_fmap.
    apply list_elem_of_filter in Hn as [Hsplit _].
    unfold is_split_node in Hsplit. lia.
  - intros v. split.
    + intros (n & -> & Hn)%list_elem_of_fmap.
      apply list_elem_of_filter in Hn as [Hsplit Hn].
      apply Hmem in Hn as [k Hk]. now exists k, n.
    + intros (k & n & Hk & Hsplit & <-).
      apply list_elem_of_fmap. exists n. split; [done|].
      apply list_elem_of_filter. split; [done|]. apply Hmem. now exists k.
Qed.

Lemma get_split_variables_spec_witness :
  tree_ok scenario2_heap scenario2_tree /\
  get_split_variables scenario2_heap scenario2_tree = Ok [0] /\
  Forall (fun v => 0 <= v) [0] /\
  forall v, v ∈ [0] <->
    exists k n, load scenario2_heap scenario2_tree k = Ok n /\
                is_split_node n = true /\ idx_split_variable n = v.
Proof.
  split; [exact scenario2_tree_ok|]. split; [reflexivity|].
  apply (get_split_variables_spec scenario2_heap scenario2_tree [0]);
    [exact scenario2_tree_ok | reflexivity].
Defined.

(** ** [copy] *)

Lemma copy_shares_nothing_witness :
  tree_ok scenario2_heap scenario2_tree /\
  copy scenario2_heap scenario2_tree = Ok scenario2_copied /\
  take (length scenario2_heap) scenario2_copied.1 = scenario2_heap /\
  (exists tc a o,
     tree_at scenario2_copied.1 scenario2_copied.2 = Ok tc /\
     (length scenario2_heap <= scenario2_copied.2)%nat /\
     (length scenario2_heap <= tree_structure tc)%nat /\
     idx_leaf_nodes tc = Some a /\ (length scenario2_heap <= a)%nat /\
     output tc = Some o /\ (length scenario2_heap <= o)%nat) /\
  (forall k lc, get_node scenario2_copied.1 scenario2_copied.2 k = Ok lc ->
     exists nc a, node_at scenario2_copied.1 lc = Ok nc /\
       (length scenario2_heap <= lc)%nat /\
       idx_data_points nc = Some a /\ (length scenario2_heap <= a)%nat) /\
  (forall k node h2,
     set_node scenario2_copied.1 scenario2_copied.2 k node = Ok h2 ->
     take (length scenario2_heap) h2 = scenario2_heap).
Proof.
  split; [exact scenario2_tree_ok|]. split; [vm_compute; reflexivity|].
  apply (copy_shares_nothing scenario2_heap scenario2_tree);
    [exact scenario2_tree_ok | vm_compute; reflexivity].
Defined.

(** What a [set_node] call does when the tree has its [idx_leaf_nodes]. *)
Lemma set_node_run (h : heap) t i node tr d n a l :
  h !! t = Some (OTree tr) -> h !! tree_structure tr = Some (ODict d) ->
  h !! node = Some (ONode n) ->
  idx_leaf_nodes tr = Some a -> h !! a = Some (ONdInt l) ->
  set_node h t i node = Ok (<[tree_structure tr := ODict (dict_set d i node)]> h).
Proof.
  intros Ht Hd Hn Ha Hl. unfold set_node.
  rewrite (proj2 (tree_at_Ok _ _ _) Ht). simpl.
  rewrite (proj2 (dict_at_Ok _ _ _) Hd). simpl.
  assert (node <> tree_structure tr) as Hne by (intros ->; congruence).
  assert (a <> tree_structure tr) as Hna by (intros ->; congruence).
  unfold node_at, ints_at. rewrite list_lookup_insert_ne, Hn by done. simpl.
  destruct (is_leaf_node n); [|done].
  rewrite Ha. simpl. now rewrite list_lookup_insert_ne, Hl by done.
Qed.

(** One round of the loop of [copy], run forward. *)
Lemma copy_item_run tree (hc : heap) k v vn a arr tc dc al li :
  hc !! v = Some (ONode vn) -> idx_data_points vn = Some a ->
  hc !! a = Some (ONdInt arr) ->
  hc !! tree = Some (OTree tc) -> hc !! tree_structure tc = Some (ODict dc) ->
  idx_leaf_nodes tc = Some al -> hc !! al = Some (ONdInt li) ->
  copy_item tree hc (k, v) =
  Ok (<[tree_structure tc := ODict (dict_set dc k (length hc + 1)%nat)]> hc
      ++ [ONdInt [];
          ONode (mkNode (index vn) (value vn) (idx_split_variable vn)
                   (Some (length hc + 2)%nat));
          ONdInt arr]).
Proof.
  intros Hv Ha Harr Htree Hdict Hal Hli. unfold copy_item, Node_init, alloc.
  rewrite <- app_assoc, length_app. simpl.
  assert (forall e, node_at (hc ++ e) v = Ok vn) as Hv'
      by (intros e; apply node_at_Ok, lookup_old, Hv).
  rewrite Hv'. simpl.
  erewrite upd_node_new by reflexivity. simpl. rewrite Hv'. simpl.
  erewrite upd_node_new by reflexivity. simpl. rewrite Hv'. simpl.
  rewrite Ha. simpl. unfold ints_copy, alloc.
  assert (forall e, ints_at (hc ++ e) a = Ok arr) as ->
      by (intros e; apply ints_at_Ok, lookup_old, Harr).
  simpl. rewrite <- app_assoc, length_app. simpl.
  erewrite upd_node_new by reflexivity. simpl. rewrite Hv'. simpl.
  erewrite upd_node_new by reflexivity. simpl.
  erewrite set_node_run;
    [|apply lookup_old, Htree|apply lookup_old, Hdict
     |rewrite (lookup_new hc hc _ 1%nat) by reflexivity; reflexivity|exact Hal
     |apply lookup_old, Hli].
  erewrite insert_old by exact Hdict. reflexivity.
Qed.

(** The loop of [copy], run forward from a store [hc] that extends [h0]:
    it goes through, and every key of [items] ends up bound to a new node
    with the fields of its node and a new array with the same rows. *)
Lemma copy_loop_run (h0 : heap) tree tc al li : forall items (hc : heap) dc,
  NoDup (map fst items) ->
  (forall k v, (k, v) ∈ items ->
     exists n a arr, h0 !! v = Some (ONode n) /\ idx_data_points n = Some a /\
                     h0 !! a = Some (ONdInt arr)) ->
  (forall l o, h0 !! l = Some o -> hc !! l = Some o) ->
  hc !! tree = Some (OTree tc) -> hc !! tree_structure tc = Some (ODict dc) ->
  idx_leaf_nodes tc = Some al -> hc !! al = Some (ONdInt li) ->
  (length h0 <= tree_structure tc)%nat ->
  exists hc' dc',
    for_each (copy_item tree) items hc = Ok hc' /\
    hc' !! tree_structure tc = Some (ODict dc') /\
    (length hc <= length hc')%nat /\
    (forall l, (l < length hc)%nat -> l <> tree_structure tc ->
               hc' !! l = hc !! l) /\
    forall k, match dict_get items k with
              | Some v =>
                  exists lc a' vn a arr,
                    dict_get dc' k = Some lc /\
                    h0 !! v = Some (ONode vn) /\ idx_data_points vn = Some a /\
                    h0 !! a = Some (ONdInt arr) /\
                    hc' !! lc = Some (ONode (mkNode (index vn) (value vn)
                                               (idx_split_variable vn) (Some a'))) /\
                    hc' !! a' = Some (ONdInt arr)
              | None => dict_get dc' k = dict_get dc k
              end.
Proof.
  induction items as [|[k0 v0] items IH];
    intros hc dc Hnodup Hnodes Hold Htree Hdict Hal Hli Hdl.
  { exists hc, dc. repeat split; auto. }
  destruct (Hnodes k0 v0) as (vn0 & a0 & arr0 & Hv0 & Ha0 & Harr0);
    [apply list_elem_of_here|].
  cbn [for_each].
  rewrite (copy_item_run tree hc k0 v0 vn0 a0 arr0 tc dc al li
             (Hold _ _ Hv0) Ha0 (Hold _ _ Harr0) Htree Hdict Hal Hli).
  simpl.
  set (dl := tree_structure tc) in *.
  set (dc1 := dict_set dc k0 (length hc + 1)%nat).
  set (hc1 := <[dl := ODict dc1]> hc ++ _).
  assert (dl < length hc)%nat as Hdl' by (now apply lookup_lt_Some in Hdict).
  assert (tree <> dl) as Htdl by (intros ->; congruence).
  assert (al <> dl) as Hadl by (intros ->; congruence).
  assert (length (<[dl := ODict dc1]> hc) = length hc) as Hlen1
      by apply length_insert.
  assert (forall l, (l < length hc)%nat -> l <> dl -> hc1 !! l = hc !! l) as Hframe1.
  { intros l Hl Hne. unfold hc1. rewrite lookup_app_l by lia.
    now rewrite list_lookup_insert_ne. }
  assert (hc1 !! dl = Some (ODict dc1)) as Hdict1.
  { unfold hc1. rewrite lookup_app_l by lia. now rewrite list_lookup_insert_eq. }
  assert (forall i : nat, hc1 !! (length hc + i)%nat =
            [ONdInt [];
             ONode (mkNode (index vn0) (value vn0) (idx_split_variable vn0)
                      (Some (length hc + 2)%nat));
             ONdInt arr0] !! i) as Hnew1.
  { intros i. unfold hc1. now apply lookup_new. }
  assert (length hc1 = length hc + 3)%nat as Hlenhc1.
  { unfold hc1. rewrite length_app, Hlen1. reflexivity. }
  apply NoDup_cons in Hnodup as [Hk0 Hnodup].
  destruct (IH hc1 dc1 Hnodup) as (hc' & dc' & Hloop & Hdict' & Hlen' & Hframe & Hkeys).
  { intros k v Hin. eapply Hnodes, list_elem_of_further, Hin. }
  { intros l o Hl. pose proof (lookup_lt_Some _ _ _ Hl). rewrite Hframe1.
    - now apply Hold.
    - apply Hold, lookup_lt_Some in Hl. lia.
    - lia. }
  { rewrite Hframe1; [done|now apply lookup_lt_Some in Htree|done]. }
  { done. }
  { done. }
  { rewrite Hframe1; [done|now apply lookup_lt_Some in Hli|done]. }
  { done. }
  exists hc', dc'. split; [exact Hloop|]. split; [done|]. split; [lia|]. split.
  { intros l Hl Hne. rewrite Hframe by (done || lia). now apply Hframe1. }
  intros k. specialize (Hkeys k). cbn [dict_get].
  destruct (Z.eqb_spec k0 k) as [<-|Hne].
  - rewrite dict_get_None in Hkeys by done.
    exists (length hc + 1)%nat, (length hc + 2)%nat, vn0, a0, arr0.
    split; [rewrite Hkeys; apply dict_get_set_eq|].
    split; [done|]. split; [done|]. split; [done|]. split.
    + rewrite Hframe by lia. apply (Hnew1 1%nat).
    + rewrite Hframe by lia. apply (Hnew1 2%nat).
  - destruct (dict_get items k) as [v|]; [done|].
    rewrite Hkeys. now apply dict_get_set_ne.
Qed.

(** X15: on a tree with all its attributes [copy] goes through, and the
    copy is deep and faithful node by node: at every index it has a node
    with the same [index], [value] and [idx_split_variable] whose
    [idx_data_points] holds the same rows, it has no other index, and its
    buffer holds what the buffer of the tree holds. *)
Theorem copy_succeeds (h : heap) t :
  tree_wf h t ->
  exists hc c,
    copy h t = Ok (hc, c) /\
    (forall k, match leaf_rows h t k with
               | Ok (n, idx) =>
                   exists n', leaf_rows hc c k = Ok (n', idx) /\ same_shape n n'
               | Raise e => leaf_rows hc c k = Raise e
               end) /\
    output_buffer hc c = output_buffer h t.
Proof.
  intros (tr & d & Ht & Hd & Hnodup & [root Hroot] & (o & b & Ho & Hb)
          & (al & li & Hal & Hli) & Hnodes).
  destruct (Hnodes 0 root) as (rn & ra & rarr & Hrn & Hra & _);
    [now apply dict_get_elem|].
  set (hc0 := h ++ [ONdFloat2 b; ONdInt [];
                    ONode (mkNode 0 (leaf_node_value tr) (-1) (Some ra));
                    ODict [(0, (length h + 2)%nat)]; ONdInt [0];
                    OTree (mkTree (length h + 3) (Some (length h + 4)%nat)
                             (Some (length h)) (leaf_node_value tr))]).
  set (tc := mkTree (length h + 3) (Some (length h + 4)%nat)
               (Some (length h)) (leaf_node_value tr)).
  assert (copy h t
          = (hc ← for_each (copy_item (length h + 5)) d hc0;
             Ok (hc, (length h + 5)%nat))) as Hcopy.
  { unfold copy, get_node.
    rewrite (proj2 (tree_at_Ok _ _ _) Ht). simpl.
    rewrite (proj2 (dict_at_Ok _ _ _) Hd). simpl. rewrite Hroot. simpl.
    rewrite (proj2 (node_at_Ok _ _ _) Hrn). simpl. rewrite Hra, Ho. simpl.
    unfold floats_copy, alloc. rewrite (proj2 (floats_at_Ok _ _ _) Hb). simpl.
    rewrite Tree_init_eq. simpl.
    rewrite <- !app_assoc, !length_app. simpl.
    rewrite <- ?Nat.add_assoc. simpl.
    rewrite (proj2 (tree_at_Ok _ _ _) (lookup_old _ _ _ _ Ht)). simpl.
    rewrite (proj2 (dict_at_Ok _ _ _) (lookup_old _ _ _ _ Hd)). simpl.
    reflexivity. }
  assert (forall i : nat, hc0 !! (length h + i)%nat = drop (length h) hc0 !! i)
    as Hnew by (intros i; now rewrite lookup_drop).
  unfold hc0 in Hnew at 2. rewrite drop_app_length in Hnew.
  assert (length hc0 = length h + 6)%nat as Hlen0
      by (unfold hc0; now rewrite length_app).
  destruct (copy_loop_run h (length h + 5) tc (length h + 4) [0] d hc0
              [(0, (length h + 2)%nat)] Hnodup Hnodes)
    as (hc & dc & Hloop & Hdc & Hlen & Hframe & Hkeys).
  { intros l o' Hl. now apply lookup_old. }
  { apply (Hnew 5%nat). }
  { apply (Hnew 3%nat). }
  { reflexivity. }
  { apply (Hnew 4%nat). }
  { simpl. lia. }
  simpl in Hdc, Hframe.
  exists hc, (length h + 5)%nat.
  split; [rewrite Hcopy, Hloop; reflexivity|].
  assert (hc !! (length h + 5)%nat = Some (OTree tc)) as Hc
      by (rewrite Hframe by lia; apply (Hnew 5%nat)).
  assert (forall l o', h !! l = Some o' -> hc !! l = Some o') as Hold.
  { intros l o' Hl. pose proof (lookup_lt_Some _ _ _ Hl).
    rewrite Hframe by lia. now apply lookup_old. }
  split.
  - intros k. specialize (Hkeys k). unfold leaf_rows, get_node.
    rewrite (proj2 (tree_at_Ok _ _ _) Ht), (proj2 (tree_at_Ok _ _ _) Hc). simpl.
    rewrite (proj2 (dict_at_Ok _ _ _) Hd), (proj2 (dict_at_Ok _ _ _) Hdc). simpl.
    destruct (dict_get d k) as [v|] eqn:Hk.
    + destruct Hkeys as (lc & a' & vn & a & arr & -> & Hv & Ha & Harr & Hlc & Ha').
      simpl.
      rewrite (proj2 (node_at_Ok _ _ _) Hv), (proj2 (node_at_Ok _ _ _) Hlc). simpl.
      rewrite Ha. simpl.
      rewrite (proj2 (ints_at_Ok _ _ _) Harr), (proj2 (ints_at_Ok _ _ _) Ha'). simpl.
      eexists. split; [reflexivity|]. now repeat split.
    + rewrite Hkeys. cbn [dict_get mbind result_bind].
      destruct (Z.eqb_spec 0 k) as [<-|]; [congruence|done].
  - unfold output_buffer.
    rewrite (proj2 (tree_at_Ok _ _ _) Ht), (proj2 (tree_at_Ok _ _ _) Hc). simpl.
    rewrite Ho. simpl. rewrite (proj2 (floats_at_Ok _ _ _) Hb).
    apply floats_at_Ok. rewrite Hframe by lia.
    rewrite <- (Nat.add_0_r (length h)) at 1. apply (Hnew 0%nat).
Qed.

Lemma scenario2_tree_wf : tree_wf scenario2_heap scenario2_tree.
Proof.
  eexists _, _. split; [reflexivity|]. split; [reflexivity|]. split.
  { apply (bool_decide_unpack _). vm_compute. exact I. }
  split; [now eexists|].
  split; [eexists _, _; split; reflexivity|].
  split; [eexists _, _; split; reflexivity|].
  intros k v Hin. apply list_elem_of_In in Hin. simpl in Hin.
  destruct Hin as [[= <- <-]|[[= <- <-]|[[= <- <-]|[]]]];
    eexists _, _, _; repeat split; reflexivity.
Qed.

Lemma copy_succeeds_witness :
  tree_wf scenario2_heap scenario2_tree /\
  exists hc c,
    copy scenario2_heap scenario2_tree = Ok (hc, c) /\
    (forall k, match leaf_rows scenario2_heap scenario2_tree k with
               | Ok (n, idx) =>
                   exists n', leaf_rows hc c k = Ok (n', idx) /\ same_shape n n'
               | Raise e => leaf_rows hc c k = Raise e
               end) /\
    output_buffer hc c = output_buffer scenario2_heap scenario2_tree.
Proof.
  split; [exact scenario2_tree_wf|].
  apply (copy_succeeds scenario2_heap scenario2_tree). exact scenario2_tree_wf.
Defined.

(** ** [_predict] *)

Lemma scenario2_registered_leaves :
  (forall i, i ∈ [1; 2] -> exists n idx,
     leaf_rows scenario2_registered_heap scenario2_registered_tree i = Ok (n, idx) /\
     Forall (fun r => 0 <= r < Z.of_nat 3) idx) /\
  (forall r i i' n n' idx idx',
     i ∈ [1; 2] -> i' ∈ [1; 2] ->
     leaf_rows scenario2_registered_heap scenario2_registered_tree i = Ok (n, idx) ->
     leaf_rows scenario2_registered_heap scenario2_registered_tree i' = Ok (n', idx') ->
     r ∈ idx -> r ∈ idx' -> i = i').
Proof.
  split.
  - intros i [->|[->|[]%elem_of_nil]%elem_of_cons]%elem_of_cons;
      eexists _, _; (split; [reflexivity|]); repeat constructor; simpl; lia.
  - intros r i i' n n' idx idx'
      [->|[->|[]%elem_of_nil]%elem_of_cons]%elem_of_cons
      [->|[->|[]%elem_of_nil]%elem_of_cons]%elem_of_cons;
      intros [= <- <-] [= <- <-] Hr Hr'; try reflexivity; exfalso;
      repeat (apply elem_of_cons in Hr as [->|Hr]);
      try (now apply elem_of_nil in Hr);
      repeat (apply elem_of_cons in Hr' as [Hr'|Hr']; try discriminate);
      now apply elem_of_nil in Hr'.
Qed.

Lemma predict_scatter_witness :
  exists b',
    _predict scenario2_registered_heap scenario2_registered_tree
    = Ok (<[1%nat := ONdFloat2 b']> scenario2_registered_heap, transpose b') /\
    shape1 b' = 1%nat /\ length (rows b') = 3%nat /\
    (forall r n, (r < 3)%nat ->
       owns scenario2_registered_heap scenario2_registered_tree [1; 2] r n ->
       rows b' !! r = Some (replicate 1 (value n))) /\
    (forall r,
       (forall n, ~ owns scenario2_registered_heap scenario2_registered_tree
                      [1; 2] r n) ->
       rows b' !! r = [[0%float]; [0%float]; [0%float]] !! r).
Proof.
  destruct scenario2_registered_leaves as [Hrows Hdisj].
  apply (predict_scatter scenario2_registered_heap scenario2_registered_tree
           (mkTree 4 (Some 16%nat) (Some 1%nat) 5) 1%nat 16%nat [1; 2]
           (mkArray2 1 [[0%float]; [0%float]; [0%float]]));
    [reflexivity|reflexivity|reflexivity|reflexivity|reflexivity
    |exact Hrows|exact Hdisj].
Defined.

(** X18: [_predict] can be repeated: on a tree whose registered nodes own
    disjoint sets of rows, all within the buffer, a second call returns what
    the first returned and leaves the buffer as the first left it. *)
Theorem predict_batch_idempotent (h : heap) t tr out a leaves b :
  h !! t = Some (OTree tr) ->
  output tr = Some out -> h !! out = Some (ONdFloat2 b) ->
  idx_leaf_nodes tr = Some a -> h !! a = Some (ONdInt leaves) ->
  (forall i, i ∈ leaves -> exists n idx,
     leaf_rows h t i = Ok (n, idx) /\
     Forall (fun r => 0 <= r < Z.of_nat (length (rows b))) idx) ->
  (forall r i i' n n' idx idx',
     i ∈ leaves -> i' ∈ leaves ->
     leaf_rows h t i = Ok (n, idx) -> leaf_rows h t i' = Ok (n', idx') ->
     r ∈ idx -> r ∈ idx' -> i = i') ->
  exists h1 r,
    _predict h t = Ok (h1, r) /\ _predict h1 t = Ok (h1, r).
Proof.
  intros Ht Hout Hb Ha Hleaves Hrows Hdisj.
  assert (t <> out) as Hto by (intros ->; congruence).
  assert (a <> out) as Hao by (intros ->; congruence).
  destruct (predict_loop h t out b Hb leaves b Hrows)
    as (b1 & Hloop1 & Hshape1 & Hlen1 & Hrow1).
  destruct (predict_loop h t out b Hb leaves b1) as (b2 & Hloop2 & Hshape2 & Hlen2 & Hrow2).
  { intros i Hi. rewrite Hlen1. now apply Hrows. }
  assert (b2 = b1) as ->.
  { destruct b1 as [s1 r1], b2 as [s2 r2]. simpl in *. f_equal; [done|].
    apply list_eq. intros r.
    destruct (decide (r < length (rows b))%nat) as [Hr|Hr].
    - destruct (Hrow2 r) as [(n2 & Hown2 & ->)|[_ ->]]; [lia| |done].
      destruct (Hrow1 r Hr) as [(n1 & Hown1 & ->)|[Hnone _]].
      + destruct Hown1 as (i1 & idx1 & Hi1 & Hl1 & Hr1).
        destruct Hown2 as (i2 & idx2 & Hi2 & Hl2 & Hr2).
        assert (i1 = i2) as <- by eauto.
        rewrite Hl1 in Hl2. injection Hl2 as <- <-. now rewrite Hshape1.
      + now apply Hnone in Hown2.
    - rewrite !(proj2 (lookup_ge_None _ _)); [done|lia..]. }
  rewrite (list_insert_id h out _ Hb) in Hloop1.
  exists (<[out := ONdFloat2 b1]> h), (transpose b1).
  assert (forall h0 : heap,
            h0 !! t = Some (OTree tr) -> h0 !! a = Some (ONdInt leaves) ->
            for_each (predict_item t out) leaves h0 = Ok (<[out := ONdFloat2 b1]> h) ->
            _predict h0 t = Ok (<[out := ONdFloat2 b1]> h, transpose b1)) as Hrun.
  { intros h0 Ht0 Ha0 Hloop. unfold _predict.
    rewrite (proj2 (tree_at_Ok _ _ _) Ht0). simpl. rewrite Hout, Ha. simpl.
    rewrite (proj2 (ints_at_Ok _ _ _) Ha0). simpl. rewrite Hloop. simpl.
    now rewrite (floats_at_buffer h out b Hb b1). }
  split; [now apply Hrun|].
  apply Hrun; [now rewrite list_lookup_insert_ne
              |now rewrite list_lookup_insert_ne|exact Hloop2].
Qed.

Lemma predict_batch_idempotent_witness :
  exists h1 r,
    _predict scenario2_registered_heap scenario2_registered_tree = Ok (h1, r) /\
    _predict h1 scenario2_registered_tree = Ok (h1, r).
Proof.
  destruct scenario2_registered_leaves as [Hrows Hdisj].
  apply (predict_batch_idempotent scenario2_registered_heap
           scenario2_registered_tree
           (mkTree 4 (Some 16%nat) (Some 1%nat) 5) 1%nat 16%nat [1; 2]
           (mkArray2 1 [[0%float]; [0%float]; [0%float]]));
    [reflexivity|reflexivity|reflexivity|reflexivity|reflexivity
    |exact Hrows|exact Hdisj].
Defined.
